(** * general.py: batch AI image renamer

    A shallow embedding of the renaming pipeline of [general.py]: the title
    sanitizer, the conflict-resolving counter loop, the batch description
    flow, the single-file recovery flow, the directory orchestrator and the
    reading and writing of [config.txt], together with the properties stated
    about them.

    Python [str] values are lists of Unicode code points; the directory is a
    finite map from file names to file identities; everything outside the
    program (the remote model, image decoding, the operating system's
    refusals, the names [os.stat] fails on, the random identifier, the order
    of a directory listing) is an oracle indexed by a clock that advances at
    every call that changes or consults the outside. *)

From Stdlib Require Import String Ascii.
From stdpp Require Import base numbers list strings pretty gmap sorting.

(** * Part I: the program *)

(** ** Python strings *)

Definition char := N.
Definition pystr := list char.

(** A string literal of the source, as code points. *)
Definition u (s : string) : pystr :=
  List.map N_of_ascii (list_ascii_of_string s).

(** [str(n)] for a non-negative [int]. *)
Definition py_str_of_int (n : nat) : pystr := u (pretty n).

Definition SPACE : char := 32%N.
Definition HYPHEN : char := 45%N.
Definition UNDERSCORE : char := 95%N.
Definition DOT : char := 46%N.

(** [str.isspace] on one code point (CPython's [_PyUnicode_IsWhitespace]);
    the same test is used by [\s] in [re] and by [str.strip()]. *)
Definition is_space (c : char) : bool :=
  (((9 <=? c) && (c <=? 13)) || ((28 <=? c) && (c <=? 32))
   || (c =? 133) || (c =? 160) || (c =? 5760)
   || ((8192 <=? c) && (c <=? 8202))
   || (c =? 8232) || (c =? 8233) || (c =? 8239) || (c =? 8287)
   || (c =? 12288))%N.

(** [str.isalnum] restricted to ASCII, and [str.lower] on ASCII letters:
    the instances used when the program is run on concrete inputs. *)
Definition ascii_isalnum (c : char) : bool :=
  (((48 <=? c) && (c <=? 57)) || ((65 <=? c) && (c <=? 90))
   || ((97 <=? c) && (c <=? 122)))%N.

Definition ascii_lower (s : pystr) : pystr :=
  List.map (fun c => if ((65 <=? c) && (c <=? 90))%N then (c + 32)%N else c) s.

(** [s.startswith(p)], [s.endswith(p)], [sub in s]. *)
Fixpoint startswith (p s : pystr) : bool :=
  match p, s with
  | [], _ => true
  | _ :: _, [] => false
  | a :: p', b :: s' => (a =? b)%N && startswith p' s'
  end.

Definition endswith (p s : pystr) : bool := startswith (rev p) (rev s).

Fixpoint contains (sub s : pystr) : bool :=
  match s with
  | [] => startswith sub []
  | _ :: r => startswith sub s || contains sub r
  end.

(** [os.path.splitext(name)[1]] for a name without a directory separator:
    the text from the last dot on, unless only dots precede that dot. *)
Fixpoint rfind (c : char) (s : pystr) (i : nat) : option nat :=
  match s with
  | [] => None
  | x :: r =>
      match rfind c r (S i) with
      | Some j => Some j
      | None => if (x =? c)%N then Some i else None
      end
  end.

Definition splitext_ext (name : pystr) : pystr :=
  match rfind DOT name 0 with
  | None => []
  | Some d =>
      if forallb (fun c => (c =? DOT)%N) (take d name) then [] else drop d name
  end.

(** ** Configuration constants *)

Definition IMAGE_EXTENSIONS : list pystr :=
  [u ".png"; u ".jpg"; u ".jpeg"; u ".webp"].
Definition PROCESSED_SUFFIX : pystr := u "_DESC".
Definition BATCH_SIZE : nat := 10.
Definition MAX_RETRIES : nat := 3.
Definition RETRY_DELAY : nat := 10.

(** ** The world the program runs in *)

(** What a file is, apart from its name. [Image.open] hands it back as the
    image. *)
Definition fileid := nat.

Inductive exn :=
  | APIError | JSONDecodeError | AttributeError | KeyError
  | ValidationError | TypeError | ValueError | OSError | OtherError.

Inductive Tag := success | error | info | retry.

(** The messages the program writes to its log, one constructor per
    [log_message] call of the source. *)
Inductive Msg :=
  | MsgClientMissing
  | MsgSendingBatch (n : nat)
  | MsgApiError (attempt max_attempts : nat)
  | MsgRetrying (secs : nat)
  | MsgParsingError
  | MsgUnexpectedError
  | MsgRetryAttempt (original_filename : pystr)
  | MsgTempRenamed (temp_filename : pystr)
  | MsgRetrySuccessConflict (new_filename : pystr)
  | MsgRetrySuccess (new_filename : pystr)
  | MsgRetryFailed (original_filename : pystr) (e : exn)
  | MsgRestored (original_filename : pystr)
  | MsgFatalRestore
  | MsgStarting
  | MsgTotalEligible (n : nat)
  | MsgLoadError (filename : pystr)
  | MsgMissingResult (original_filename : pystr)
  | MsgRenameSuccessConflict (new_filename : pystr)
  | MsgRenameSuccess (new_filename : pystr)
  | MsgRenameError (original_filename : pystr)
  | MsgBatchFailed (n : nat)
  | MsgPausing
  | MsgStartingRetry (n : nat)
  | MsgComplete
  | MsgSummaryEligible (n : nat)
  | MsgSummaryRenamed (n : nat)
  | MsgSummaryUntouched (n : Z).

(** Everything the program does to the outside, in order. *)
Inductive Event :=
  | Log (m : Msg) (tag : Tag)
  | Sleep (secs : nat)
  | Rename (src dst : pystr) (done : bool)
  | Open (path : pystr) (opened : bool)
  | Listdir
  | Uuid4
  | BatchRequest (filenames : list pystr)
  | SingleRequest
  | ShowInfo (renamed : nat).

Record World := mkWorld {
  fs : gmap pystr fileid;
  clock : nat;
  trace : list Event;
  gemini_client : bool
}.

(** The value of [json_data.get('short_title')]. *)
Inductive json_title :=
  | JMissing
  | JStr (s : pystr)
  | JOther (truthy : bool).

Record Env := mkEnv {
  (** [uuid.uuid4().hex[:8]] *)
  uuid4_hex8 : nat -> pystr;
  (** [os.rename] raises although its source exists *)
  os_refuses : nat -> pystr -> pystr -> bool;
  (** [Image.open] raises although the file exists *)
  image_unreadable : nat -> pystr -> bool;
  (** lines 122-133: the exception raised by [generate_content],
      [json.loads] or the [BatchDescription] constructor, or the
      (original_filename, short_title) pairs of the descriptions *)
  batch_reply : nat -> list pystr -> exn + list (pystr * pystr);
  (** lines 179-189: the exception raised, or the title field *)
  single_reply : nat -> exn + json_title;
  (** the position [os.listdir] gives a name *)
  listdir_rank : nat -> pystr -> nat;
  (** [os.stat] raises although the name is listed: a symbolic link whose
      target is gone, an entry that may not be examined *)
  os_stat_fails : nat -> pystr -> bool
}.

(** ** A state and exception monad *)

Inductive Outcome (A : Type) :=
  | Returns (a : A) (w : World)
  | Raises (e : exn) (w : World)
  | Diverges.
Arguments Returns {A} a w.
Arguments Raises {A} e w.
Arguments Diverges {A}.

Definition M (A : Type) := World -> Outcome A.

Definition ret {A} (a : A) : M A := fun w => Returns a w.

Definition bind {A B} (m : M A) (k : A -> M B) : M B :=
  fun w =>
    match m w with
    | Returns a w' => k a w'
    | Raises e w' => Raises e w'
    | Diverges => Diverges
    end.

Definition raise {A} (e : exn) : M A := fun w => Raises e w.

Definition diverge {A} : M A := fun _ => Diverges.

(** [try: body except Exception as e: handler e] *)
Definition try_except {A} (body : M A) (handler : exn -> M A) : M A :=
  fun w =>
    match body w with
    | Raises e w' => handler e w'
    | o => o
    end.

Declare Scope py_scope.
Delimit Scope py_scope with py.
Notation "x <- c1 ;; c2" := (bind c1 (fun x => c2))
  (at level 100, c1 at next level, right associativity) : py_scope.
Notation "c1 ;; c2" := (bind c1 (fun _ => c2))
  (at level 100, right associativity) : py_scope.
Open Scope py_scope.

Definition emit (ev : Event) : M unit :=
  fun w => Returns tt (mkWorld (fs w) (clock w) (trace w ++ [ev]) (gemini_client w)).

Definition tick : M nat :=
  fun w => Returns (clock w) (mkWorld (fs w) (S (clock w)) (trace w) (gemini_client w)).

Definition set_fs (d : gmap pystr fileid) : M unit :=
  fun w => Returns tt (mkWorld d (clock w) (trace w) (gemini_client w)).

Definition get_fs : M (gmap pystr fileid) := fun w => Returns (fs w) w.

Definition get_client : M bool := fun w => Returns (gemini_client w) w.

Definition get_clock : M nat := fun w => Returns (clock w) w.

Definition log_message (m : Msg) (tag : Tag) : M unit := emit (Log m tag).

Definition time_sleep (secs : nat) : M unit := emit (Sleep secs).

Definition messagebox_showinfo (renamed : nat) : M unit := emit (ShowInfo renamed).

(** ** Sorting file names *)

(** [a <= b] on [str]: lexicographic on code points. *)
Fixpoint str_leb (a b : pystr) : bool :=
  match a, b with
  | [], _ => true
  | _ :: _, [] => false
  | x :: a', y :: b' =>
      if (x <? y)%N then true else if (y <? x)%N then false else str_leb a' b'
  end.

Definition str_le (a b : pystr) : Prop := str_leb a b = true.

#[global] Instance str_le_dec : RelDecision str_le :=
  fun a b => decide (str_leb a b = true).

(** [sorted(list(set(l)))]: the distinct elements of [l] in ascending
    order. *)
Definition sorted_set (l : list pystr) : list pystr :=
  merge_sort str_le (remove_dups l).

(** The failure set as the specification words it: the accumulated list
    with repeats dropped, in accumulation order. *)
Definition first_occurrences (l : list pystr) : list pystr :=
  rev (remove_dups (rev l)).

(** ** Concrete worlds

    The directories, environments and intermediate worlds on which the
    program is run in Part III. *)

Definition cat_jpg : pystr := u "cat.jpg".
Definition temp_cat : pystr := u "temp_retry_ab12cd34.jpg".
Definition a_jpg : pystr := u "a.jpg".
Definition b_jpg : pystr := u "b.jpg".

(** A directory with one image, and a client in place. *)
Definition cat_world : World := mkWorld (<[cat_jpg := 7]> ∅) 0 [] true.

(** A directory with two images; a mapping that describes only [b.jpg]. *)
Definition two_images : list (pystr * fileid) := [(a_jpg, 1); (b_jpg, 2)].
Definition two_world : World :=
  mkWorld (<[a_jpg := 1]> (<[b_jpg := 2]> ∅)) 0 [] true.
Definition only_b : gmap pystr pystr := <[b_jpg := u "Red Sunset"]> ∅.

(** The remote model answers every request with a service error. *)
Definition env_api_down : Env :=
  mkEnv (fun _ => u "ab12cd34") (fun _ _ _ => false) (fun _ _ => false)
        (fun _ _ => inl APIError) (fun _ => inl APIError) (fun _ _ => 0)
        (fun _ _ => false).

(** The operating system refuses every rename. *)
Definition env_locked : Env :=
  mkEnv (fun _ => u "ab12cd34") (fun _ _ _ => true) (fun _ _ => false)
        (fun _ _ => inl APIError) (fun _ => inl APIError) (fun _ _ => 0)
        (fun _ _ => false).

(** The remote model titles every image with [title]. *)
Definition env_titles (title : pystr) : Env :=
  mkEnv (fun _ => u "ab12cd34") (fun _ _ _ => false) (fun _ _ => false)
        (fun _ names => inr (List.map (fun n => (n, title)) names))
        (fun _ => inr (JStr title)) (fun _ _ => 0)
        (fun _ _ => false).

(** The operating system refuses to rename [b.jpg]. *)
Definition env_b_locked : Env :=
  mkEnv (fun _ => u "ab12cd34")
        (fun _ src _ => bool_decide (src = b_jpg)) (fun _ _ => false)
        (fun _ names => inr (List.map (fun n => (n, u "Red Sunset")) names))
        (fun _ => inr (JStr (u "Red Sunset"))) (fun _ _ => 0)
        (fun _ _ => false).

(** The batch response fails to parse, and [os.listdir] lists [b.jpg]
    before [a.jpg]. *)
Definition env_b_first : Env :=
  mkEnv (fun _ => u "ab12cd34") (fun _ _ _ => false) (fun _ _ => false)
        (fun _ _ => inl JSONDecodeError) (fun _ => inl APIError)
        (fun _ name => if bool_decide (name = b_jpg) then 0 else 1)
        (fun _ _ => false).

(** [cat_world] after the temporary name is chosen, after Isolating, and
    after the failed request of [env_api_down]. *)
Definition cat_named : World :=
  mkWorld (<[cat_jpg := 7]> ∅) 1
    [Log (MsgRetryAttempt cat_jpg) retry; Uuid4] true.
Definition cat_isolated : World :=
  mkWorld (<[temp_cat := 7]> ∅) 2
    [Log (MsgRetryAttempt cat_jpg) retry; Uuid4;
     Rename cat_jpg temp_cat true; Log (MsgTempRenamed temp_cat) retry] true.
Definition cat_requested : World :=
  mkWorld (<[temp_cat := 7]> ∅) 4
    [Log (MsgRetryAttempt cat_jpg) retry; Uuid4;
     Rename cat_jpg temp_cat true; Log (MsgTempRenamed temp_cat) retry;
     Open temp_cat true; SingleRequest] true.

(** [cat_named] after the Isolating rename was refused. *)
Definition cat_refused : World :=
  mkWorld (<[cat_jpg := 7]> ∅) 2
    [Log (MsgRetryAttempt cat_jpg) retry; Uuid4;
     Rename cat_jpg temp_cat false] true.

(** [cat.jpg] in a directory, and no client. *)
Definition cat_world_no_client : World :=
  mkWorld (<[cat_jpg := 7]> ∅) 0 [] false.

(** A directory after a run: one renamed image and a text file. *)
Definition sunset_desc : pystr := u "Red_Sunset_DESC.jpg".
Definition notes_txt : pystr := u "notes.txt".
Definition done_world : World :=
  mkWorld (<[sunset_desc := 7]> (<[notes_txt := 8]> ∅)) 0 [] true.

(** A directory with [cat.jpg] and a symbolic link [Red_Sunset_DESC.jpg]
    whose target is gone, and an operating system whose [os.stat] fails on
    that link; the remote model titles every image "Red Sunset". *)
Definition link_world : World :=
  mkWorld (<[cat_jpg := 7]> (<[sunset_desc := 8]> ∅)) 0 [] true.
Definition env_dangling : Env :=
  mkEnv (fun _ => u "ab12cd34") (fun _ _ _ => false) (fun _ _ => false)
        (fun _ names => inr (List.map (fun n => (n, u "Red Sunset")) names))
        (fun _ => inr (JStr (u "Red Sunset"))) (fun _ _ => 0)
        (fun _ path => bool_decide (path = sunset_desc)).

Section Renamer.

(** [str.isalnum] on one code point (the Unicode table behind [\w]),
    [str.lower], and the environment of the run. *)
Variable isalnum : char -> bool.
Variable lower : pystr -> pystr.
Variable E : Env.

(** ** Naming sanitizer *)

(** [\w] *)
Definition is_word (c : char) : bool := isalnum c || (c =? UNDERSCORE)%N.

(** The class [[\w\s-]]; [re.sub(r'[^\w\s-]', '', s)] deletes every
    character outside it. *)
Definition in_class (c : char) : bool :=
  is_word c || is_space c || (c =? HYPHEN)%N.

Definition re_sub_outside_class (s : pystr) : pystr := List.filter in_class s.

Fixpoint lstrip (s : pystr) : pystr :=
  match s with
  | [] => []
  | c :: r => if is_space c then lstrip r else s
  end.

Fixpoint rstrip (s : pystr) : pystr :=
  match s with
  | [] => []
  | c :: r =>
      match rstrip r with
      | [] => if is_space c then [] else [c]
      | r' => c :: r'
      end
  end.

(** [s.strip()] *)
Definition strip (s : pystr) : pystr := rstrip (lstrip s).

(** [s.replace(old, new)] for one-character [old] and [new]. *)
Definition replace (old new : char) (s : pystr) : pystr :=
  List.map (fun c => if (c =? old)%N then new else c) s.

(** [re.sub(r'[^\w\s-]', '', t).strip().replace(' ', '_').replace('-', '_')] *)
Definition sanitize (short_title : pystr) : pystr :=
  replace HYPHEN UNDERSCORE
    (replace SPACE UNDERSCORE (strip (re_sub_outside_class short_title))).

(** The sanitizer as the specification words it: after the same deletion
    and trimming, every maximal run of spaces and hyphens becomes one
    separator. *)
Definition is_sep (c : char) : bool := ((c =? SPACE) || (c =? HYPHEN))%N.

Fixpoint collapse_runs (sep : char) (in_run : bool) (s : pystr) : pystr :=
  match s with
  | [] => []
  | c :: r =>
      if is_sep c
      then (if in_run then collapse_runs sep true r
            else sep :: collapse_runs sep true r)
      else c :: collapse_runs sep false r
  end.

Definition sanitize_collapsing (short_title : pystr) : pystr :=
  collapse_runs UNDERSCORE false (strip (re_sub_outside_class short_title)).

(** One character through both replacements. *)
Definition to_separator (c : char) : char :=
  if (c =? HYPHEN)%N then UNDERSCORE
  else if (c =? SPACE)%N then UNDERSCORE else c.

Definition trimmed (s : pystr) : Prop :=
  (forall c, head s = Some c -> is_space c = false) /\
  (forall c, last s = Some c -> is_space c = false).

(** ** Operating system and remote calls *)

(** [os.rename(src, dst)] inside the one target directory: it raises when
    [src] is missing or the operating system refuses; otherwise the file
    moves to [dst], replacing whatever was there. *)
Definition os_rename (src dst : pystr) : M unit :=
  t <- tick ;;
  d <- get_fs ;;
  match d !! src with
  | None => emit (Rename src dst false) ;; raise OSError
  | Some c =>
      if os_refuses E t src dst
      then emit (Rename src dst false) ;; raise OSError
      else set_fs (<[dst := c]> (delete src d)) ;; emit (Rename src dst true)
  end.

(** What [os.path.exists(path)] answers in [w]: [os.stat] follows symbolic
    links, and a name it raises on counts as not existing although
    [os.listdir] lists it. *)
Definition path_exists (w : World) (path : pystr) : bool :=
  bool_decide (is_Some (fs w !! path))
  && negb (os_stat_fails E (clock w) path).

(** [os.path.exists(path)] *)
Definition os_path_exists (path : pystr) : M bool :=
  t <- get_clock ;;
  d <- get_fs ;;
  ret (bool_decide (is_Some (d !! path)) && negb (os_stat_fails E t path)).

(** The order the operating system lists names in. *)
Definition listed_before (t : nat) (a b : pystr) : Prop :=
  listdir_rank E t a <= listdir_rank E t b.

#[global] Instance listed_before_dec t : RelDecision (listed_before t) :=
  fun a b => decide (listdir_rank E t a <= listdir_rank E t b).

(** [os.listdir(folder_path)] *)
Definition os_listdir : M (list pystr) :=
  t <- tick ;;
  d <- get_fs ;;
  emit Listdir ;;
  ret (merge_sort (listed_before t) (elements (dom d))).

(** [Image.open(path)] *)
Definition Image_open (path : pystr) : M fileid :=
  t <- tick ;;
  d <- get_fs ;;
  match d !! path with
  | None => emit (Open path false) ;; raise OSError
  | Some c =>
      if image_unreadable E t path
      then emit (Open path false) ;; raise OSError
      else emit (Open path true) ;; ret c
  end.

(** [uuid.uuid4().hex[:8]] *)
Definition uuid4_hex_8 : M pystr :=
  t <- tick ;; emit Uuid4 ;; ret (uuid4_hex8 E t).

(** Lines 122-133: the batch request and the parsing of its response. *)
Definition request_batch (filenames : list pystr) : M (list (pystr * pystr)) :=
  t <- tick ;;
  emit (BatchRequest filenames) ;;
  match batch_reply E t filenames with
  | inl e => raise e
  | inr descriptions => ret descriptions
  end.

(** Lines 179-189: the single-image request and [json_data.get]. *)
Definition request_single : M json_title :=
  t <- tick ;;
  emit SingleRequest ;;
  match single_reply E t with
  | inl e => raise e
  | inr title => ret title
  end.

(** ** Batch description flow *)

(** Lines 135-137: later descriptions of a filename replace earlier ones. *)
Definition build_result_map (descriptions : list (pystr * pystr))
  : gmap pystr pystr :=
  foldl (fun m d => <[d.1 := d.2]> m) ∅ descriptions.

(** The [while retries < MAX_RETRIES] loop. *)
Fixpoint batch_attempts (fuel retries : nat)
    (image_batch : list (pystr * fileid)) : M (option (gmap pystr pystr)) :=
  match fuel with
  | O => diverge
  | S fuel' =>
      if retries <? MAX_RETRIES then
        try_except
          (log_message (MsgSendingBatch (length image_batch)) info ;;
           descriptions <- request_batch (List.map fst image_batch) ;;
           ret (Some (build_result_map descriptions)))
          (fun e =>
             match e with
             | APIError =>
                 let retries := retries + 1 in
                 log_message (MsgApiError retries MAX_RETRIES) error ;;
                 if retries <? MAX_RETRIES then
                   log_message (MsgRetrying RETRY_DELAY) info ;;
                   time_sleep RETRY_DELAY ;;
                   batch_attempts fuel' retries image_batch
                 else ret None
             | JSONDecodeError | AttributeError | KeyError =>
                 log_message MsgParsingError error ;; ret None
             | _ => log_message MsgUnexpectedError error ;; ret None
             end)
      else ret None
  end.

Definition get_batch_info_from_images (image_batch : list (pystr * fileid))
  : M (option (gmap pystr pystr)) :=
  client <- get_client ;;
  if negb client then log_message MsgClientMissing error ;; ret None
  else batch_attempts (S MAX_RETRIES) 0 image_batch.

(** ** Conflict-resolving renamer *)

(** The [while os.path.exists(new_file_path)] loop: returns the final
    [new_filename] and [counter]. *)
Fixpoint conflict_loop (fuel : nat) (new_base_name ext : pystr)
    (counter : nat) (new_filename : pystr) : M (pystr * nat) :=
  match fuel with
  | O => diverge
  | S fuel' =>
      taken <- os_path_exists new_filename ;;
      if taken then
        conflict_loop fuel' new_base_name ext (counter + 1)
          (new_base_name ++ u "_" ++ py_str_of_int counter ++ ext)
      else ret (new_filename, counter)
  end.

(** Lines 277-288 and 194-205, which are the same code: sanitize the
    title, search a name [os.path.exists] does not report, rename. *)
Definition rename_to_description (src ext short_title : pystr)
  : M (pystr * nat) :=
  let cleaned_title := sanitize short_title in
  let new_base_name := cleaned_title ++ PROCESSED_SUFFIX in
  let new_filename := new_base_name ++ ext in
  d <- get_fs ;;
  found <- conflict_loop (S (size d)) new_base_name ext 1 new_filename ;;
  let new_filename := found.1 in
  let counter := found.2 in
  os_rename src new_filename ;;
  ret (new_filename, counter).

(** The n-th name the counter loop tries. *)
Definition candidate (new_base_name ext : pystr) (n : nat) : pystr :=
  match n with
  | O => new_base_name ++ ext
  | S _ => new_base_name ++ u "_" ++ py_str_of_int n ++ ext
  end.

(** ** Single-file recovery flow *)

Definition temp_name (temp_unique_id ext : pystr) : pystr :=
  u "temp_retry_" ++ temp_unique_id ++ ext.

(** Lines 174-175. *)
Definition isolating (original_filename temp_filename : pystr) : M unit :=
  os_rename original_filename temp_filename ;;
  log_message (MsgTempRenamed temp_filename) retry.

(** Lines 177-192; a truthy title that is not a string makes [re.sub]
    raise. *)
Definition requesting (temp_filename : pystr) : M pystr :=
  img <- Image_open temp_filename ;;
  title <- request_single ;;
  match title with
  | JMissing => raise ValueError
  | JStr [] => raise ValueError
  | JStr short_title => ret short_title
  | JOther truthy => if truthy then raise TypeError else raise ValueError
  end.

(** Lines 194-212. *)
Definition renaming (temp_filename ext short_title : pystr) : M bool :=
  done <- rename_to_description temp_filename ext short_title ;;
  let new_filename := done.1 in
  let counter := done.2 in
  (if 1 <? counter
   then log_message (MsgRetrySuccessConflict new_filename) success
   else log_message (MsgRetrySuccess new_filename) success) ;;
  ret true.

(** Lines 214-222. *)
Definition rollback (original_filename temp_filename : pystr) (e : exn)
  : M bool :=
  log_message (MsgRetryFailed original_filename e) error ;;
  try_except
    (os_rename temp_filename original_filename ;;
     log_message (MsgRestored original_filename) error)
    (fun _ => log_message MsgFatalRestore error) ;;
  ret false.

(** Lines 164-168. *)
Definition choose_temp_name (original_filename : pystr) : M pystr :=
  log_message (MsgRetryAttempt original_filename) retry ;;
  temp_unique_id <- uuid4_hex_8 ;;
  ret (temp_name temp_unique_id (splitext_ext original_filename)).

(** Lines 173-222: the [try] statement, once the temporary name is chosen. *)
Definition recovery_attempt (original_filename temp_filename : pystr)
  : M bool :=
  try_except
    (isolating original_filename temp_filename ;;
     short_title <- requesting temp_filename ;;
     renaming temp_filename (splitext_ext original_filename) short_title)
    (rollback original_filename temp_filename).

Definition retry_failed_file (original_filename : pystr) : M bool :=
  client <- get_client ;;
  if negb client then ret false
  else
    temp_filename <- choose_temp_name original_filename ;;
    recovery_attempt original_filename temp_filename.

(** ** Directory orchestrator *)

Definition is_eligible (f : pystr) : bool :=
  existsb (fun ext => endswith ext (lower f)) IMAGE_EXTENSIONS
  && negb (contains PROCESSED_SUFFIX f).

(** Lines 250-257. *)
Fixpoint load_images (files : list pystr)
    (image_batch : list (pystr * fileid)) (failed : list pystr)
  : M (list (pystr * fileid) * list pystr) :=
  match files with
  | [] => ret (image_batch, failed)
  | filename :: rest =>
      st <-
         try_except
           (img <- Image_open filename ;;
            ret (image_batch ++ [(filename, img)], failed))
           (fun _ =>
              log_message (MsgLoadError filename) error ;;
              ret (image_batch, failed ++ [filename])) ;;
      load_images rest st.1 st.2
  end.

(** Lines 271-299: one described file. *)
Definition rename_described (original_filename short_title : pystr)
    (count : nat) (failed : list pystr) : M (nat * list pystr) :=
  try_except
    (done <-
       rename_to_description original_filename
         (splitext_ext original_filename) short_title ;;
     let new_filename := done.1 in
     let counter := done.2 in
     (if 1 <? counter
      then log_message (MsgRenameSuccessConflict new_filename) success
      else log_message (MsgRenameSuccess new_filename) success) ;;
     ret (count + 1, failed))
    (fun _ =>
       log_message (MsgRenameError original_filename) error ;;
       ret (count, failed ++ [original_filename])).

(** Lines 265-299: [for original_filename, _ in image_batch]. *)
Fixpoint process_results (result_map : gmap pystr pystr)
    (image_batch : list (pystr * fileid)) (count : nat) (failed : list pystr)
  : M (nat * list pystr) :=
  match image_batch with
  | [] => ret (count, failed)
  | (original_filename, _) :: rest =>
      match result_map !! original_filename with
      | None =>
          log_message (MsgMissingResult original_filename) error ;;
          process_results result_map rest count (failed ++ [original_filename])
      | Some short_title =>
          st <-
             rename_described original_filename short_title count failed ;;
          process_results result_map rest st.1 st.2
      end
  end.

(** [if result_map:] *)
Definition truthy (result_map : option (gmap pystr pystr)) : bool :=
  match result_map with
  | Some m => negb (bool_decide (m = ∅))
  | None => false
  end.

(** Lines 263-302. *)
Definition apply_batch_result (result_map : option (gmap pystr pystr))
    (current_batch_files : list pystr) (image_batch : list (pystr * fileid))
    (count : nat) (failed : list pystr) : M (nat * list pystr) :=
  if truthy result_map then
    process_results (default ∅ result_map) image_batch count failed
  else
    log_message (MsgBatchFailed (length image_batch)) error ;;
    ret (count, failed ++ current_batch_files).

(** Lines 246-302: one iteration of the batch loop. *)
Definition process_batch (current_batch_files : list pystr)
    (count : nat) (failed : list pystr) : M (nat * list pystr) :=
  loaded <- load_images current_batch_files [] failed ;;
  let image_batch := loaded.1 in
  let failed := loaded.2 in
  match image_batch with
  | [] => ret (count, failed)
  | _ =>
      result_map <- get_batch_info_from_images image_batch ;;
      apply_batch_result result_map current_batch_files image_batch
        count failed
  end.

(** The [while file_index < total_eligible_files] loop. *)
Fixpoint batch_loop (fuel : nat) (all_files : list pystr) (use_delay : bool)
    (file_index count : nat) (failed : list pystr) : M (nat * list pystr) :=
  match fuel with
  | O => diverge
  | S fuel' =>
      let total_eligible_files := length all_files in
      if file_index <? total_eligible_files then
        let current_batch_files :=
          take BATCH_SIZE (drop file_index all_files) in
        st <- process_batch current_batch_files count failed ;;
        let count := st.1 in
        let failed := st.2 in
        let file_index := file_index + BATCH_SIZE in
        (if use_delay && (file_index <? total_eligible_files)
         then log_message MsgPausing info ;; time_sleep 5
         else ret tt) ;;
        batch_loop fuel' all_files use_delay file_index count failed
      else ret (count, failed)
  end.

(** Lines 319-321. *)
Fixpoint retry_loop (files : list pystr) (retry_processed_count : nat)
  : M nat :=
  match files with
  | [] => ret retry_processed_count
  | filename :: rest =>
      ok <- retry_failed_file filename ;;
      retry_loop rest
        (if ok then retry_processed_count + 1 else retry_processed_count)
  end.

(** The local variables of [rename_images_in_directory] when it returns. *)
Record Tally := mkTally {
  total_eligible_files : nat;
  batch_processed_count : nat;
  failed_files_for_retry : list pystr;
  unique_failed_files : list pystr;
  retry_processed_count : nat;
  total_renamed : nat;
  total_failed : Z
}.

Definition rename_images_in_directory (use_delay : bool) : M Tally :=
  log_message MsgStarting info ;;
  listing <- os_listdir ;;
  let all_files := List.filter is_eligible listing in
  let total := length all_files in
  log_message (MsgTotalEligible total) info ;;
  st <- batch_loop (S total) all_files use_delay 0 0 [] ;;
  let batch_count := st.1 in
  let failed := st.2 in
  let unique := sorted_set failed in
  retry_count <-
    (match unique with
     | [] => ret 0
     | _ =>
         log_message (MsgStartingRetry (length unique)) retry ;;
         retry_loop unique 0
     end) ;;
  let renamed := batch_count + retry_count in
  let untouched := (Z.of_nat total - Z.of_nat renamed)%Z in
  log_message MsgComplete info ;;
  log_message (MsgSummaryEligible total) info ;;
  log_message (MsgSummaryRenamed renamed) success ;;
  log_message (MsgSummaryUntouched untouched) error ;;
  messagebox_showinfo renamed ;;
  ret (mkTally total batch_count failed unique retry_count renamed untouched).

(** ** Reading a trace *)

(** The file names announced by "[RETRY] Attempting retry for". *)
Definition retried_names (t : list Event) : list pystr :=
  omap (fun ev => match ev with
                  | Log (MsgRetryAttempt f) _ => Some f
                  | _ => None
                  end) t.

(** The remote requests and pauses of a trace. *)
Definition requests_and_sleeps (t : list Event) : list Event :=
  List.filter (fun ev => match ev with
                         | BatchRequest _ | SingleRequest | Sleep _ => true
                         | _ => false
                         end) t.

(** The requests and pauses of a batch whose first [k] attempts are
    answered by a remote-service error and retried. *)
Fixpoint retried_requests (filenames : list pystr) (k : nat) : list Event :=
  match k with
  | O => [BatchRequest filenames]
  | S k' =>
      BatchRequest filenames :: Sleep RETRY_DELAY
        :: retried_requests filenames k'
  end.

(** What the batch flow returns for the reply that ends it. *)
Definition batch_result (reply : exn + list (pystr * pystr))
  : option (gmap pystr pystr) :=
  match reply with
  | inr descriptions => Some (build_result_map descriptions)
  | inl _ => None
  end.

(** The [os.rename] calls of a trace. *)
Definition renames (t : list Event) : list Event :=
  List.filter (fun ev => match ev with Rename _ _ _ => true | _ => false end) t.

(** ** Reasoning about outcomes *)

(** [m], run from [w], returns a value satisfying [Q] or raises an
    exception satisfying [Qe]; it does not diverge. *)
Definition wp {A} (m : M A) (w : World)
    (Q : A -> World -> Prop) (Qe : exn -> World -> Prop) : Prop :=
  match m w with
  | Returns a w' => Q a w'
  | Raises e w' => Qe e w'
  | Diverges => False
  end.

Definition never {B} : B -> World -> Prop := fun _ _ => False.

(** [w'] has the client of [w] and announces no further retry. *)
Definition same_retries (w w' : World) : Prop :=
  gemini_client w' = gemini_client w
  /\ retried_names (trace w') = retried_names (trace w).

(** [m] ends, by returning or raising, without announcing a retry. *)
Definition quiet {A} (m : M A) : Prop :=
  forall w, wp m w (fun _ w' => same_retries w w')
                   (fun _ w' => same_retries w w').

(** [m] returns, and announces no retry. *)
Definition quiet_returns {A} (m : M A) : Prop :=
  forall w, wp m w (fun _ w' => same_retries w w') never.

(** ** Frames *)

(** [m] ends, by returning or raising, in a world that [R] relates to the
    one it started in. *)
Definition framed (R : World -> World -> Prop) {A} (m : M A) : Prop :=
  forall w, wp m w (fun _ w' => R w w') (fun _ w' => R w w').

(** The same, and [m] returns. *)
Definition framed_returns (R : World -> World -> Prop) {A} (m : M A) : Prop :=
  forall w, wp m w (fun _ w' => R w w') never.

(** The directory and the client are untouched. *)
Definition same_fs (w w' : World) : Prop :=
  fs w' = fs w /\ gemini_client w' = gemini_client w.

(** No event selected by [keep] was added. *)
Definition same_events (keep : Event -> bool) (w w' : World) : Prop :=
  List.filter keep (trace w') = List.filter keep (trace w).

(** The files of a directory without their names. *)
Definition contents (d : gmap pystr fileid) : list fileid :=
  (map_to_list d).*2.

(** The same files are there, whatever their names. *)
Definition same_contents (w w' : World) : Prop :=
  contents (fs w') ≡ₚ contents (fs w).

(** The events [requests_and_sleeps] keeps, and the pauses between batches. *)
Definition is_request_or_sleep (ev : Event) : bool :=
  match ev with
  | BatchRequest _ | SingleRequest | Sleep _ => true
  | _ => false
  end.

Definition is_pause (ev : Event) : bool :=
  match ev with
  | Sleep secs => secs =? 5
  | _ => false
  end.

(** The paths [Image.open] was called on. *)
Definition is_open (ev : Event) : bool :=
  match ev with Open _ _ => true | _ => false end.

Definition opened_paths (t : list Event) : list pystr :=
  omap (fun ev => match ev with Open path _ => Some path | _ => None end) t.

(** [ceil(n / BATCH_SIZE)]: the number of batches [n] files make. *)
Definition batch_count (n : nat) : nat := (n + (BATCH_SIZE - 1)) / BATCH_SIZE.

(** ** Runs that leave everything alone *)

(** The events that reach the remote model or try to change the directory. *)
Definition is_effect (ev : Event) : bool :=
  match ev with
  | BatchRequest _ | SingleRequest | Rename _ _ _ => true
  | _ => false
  end.

(** [w'] has the directory and the client of [w], and no further request or
    rename on its trace. *)
Definition idle (w w' : World) : Prop :=
  fs w' = fs w
  /\ gemini_client w' = gemini_client w
  /\ List.filter is_effect (trace w') = List.filter is_effect (trace w).

(** ** The configuration file (lines 54-83) *)

Definition LF : char := 10%N.
Definition CR : char := 13%N.
Definition EQUALS : char := 61%N.

Definition KEY_PREFIX : pystr := u "GEMINI_API_KEY=".
Definition FOLDER_PREFIX : pystr := u "DEFAULT_FOLDER_PATH=".

(** [os.getcwd()], [os.path.isdir] and [os.linesep]. *)
Variable os_getcwd : pystr.
Variable os_path_isdir : pystr -> bool.
Variable os_linesep : pystr.

(** Iterating over a file opened in text mode: a line ends at ['\n'],
    ['\r'] or ['\r\n'], each handed over as ['\n']; a last line without an
    end is handed over as it is.  [acc] is the line read so far. *)
Fixpoint read_lines (acc s : pystr) : list pystr :=
  match s with
  | [] => match acc with [] => [] | _ => [acc] end
  | c :: rest =>
      if (c =? LF)%N then (acc ++ [LF]) :: read_lines [] rest
      else if (c =? CR)%N then
        match rest with
        | c' :: rest' =>
            if (c' =? LF)%N then (acc ++ [LF]) :: read_lines [] rest'
            else (acc ++ [LF]) :: read_lines [] rest
        | [] => [acc ++ [LF]]
        end
      else read_lines (acc ++ [c]) rest
  end.

(** Writing to a file opened in text mode: each ['\n'] goes to disk as
    [os.linesep]. *)
Definition write_text (s : pystr) : pystr :=
  flat_map (fun c => if (c =? LF)%N then os_linesep else [c]) s.

(** [s.split(sep, 1)] for a one-character [sep]. *)
Fixpoint split_once (sep : char) (s : pystr) : list pystr :=
  match s with
  | [] => [[]]
  | c :: r =>
      if (c =? sep)%N then [[]; r]
      else match split_once sep r with
           | h :: t => (c :: h) :: t
           | [] => [[c]]
           end
  end.

(** The body of [for line in f]: the two variables after the lines, and
    whether indexing the split line raised. *)
Fixpoint config_lines (lines : list pystr) (api_key folder_path : pystr)
  : pystr * pystr * bool :=
  match lines with
  | [] => (api_key, folder_path, false)
  | line :: rest =>
      if startswith KEY_PREFIX line then
        match split_once EQUALS line !! 1 with
        | Some value => config_lines rest (strip value) folder_path
        | None => (api_key, folder_path, true)
        end
      else if startswith FOLDER_PREFIX line then
        match split_once EQUALS line !! 1 with
        | Some value =>
            let folder_path := strip value in
            config_lines rest api_key
              (if os_path_isdir folder_path then folder_path else os_getcwd)
        | None => (api_key, folder_path, true)
        end
      else config_lines rest api_key folder_path
  end.

(** [load_config()].  [file] is the text of [config.txt], if the file
    exists; [read_error] is the number of lines handed over before reading
    raised, if it did (0 when [open] itself raised).  The result is the pair
    returned and whether the warning was printed. *)
Definition load_config (file : option pystr) (read_error : option nat)
  : pystr * pystr * bool :=
  match file with
  | None => ([], os_getcwd, false)
  | Some text =>
      let lines := read_lines [] text in
      match read_error with
      | None => config_lines lines [] os_getcwd
      | Some n =>
          let r := config_lines (take n lines) [] os_getcwd in
          (r.1.1, r.1.2, true)
      end
  end.

(** The text [save_config] writes. *)
Definition config_text (api_key folder_path : pystr) : pystr :=
  KEY_PREFIX ++ api_key ++ [LF] ++ FOLDER_PREFIX ++ folder_path ++ [LF].

(** How writing [config.txt] went. *)
Inductive WriteOutcome :=
  | Written
  | OpenRefused
  | WriteFailed (n : nat).

(** [save_config(api_key, folder_path)]: the file afterwards and whether
    the warning was printed.  A refused [open] leaves the file alone; a
    failed write leaves the first [n] characters. *)
Definition save_config (outcome : WriteOutcome) (api_key folder_path : pystr)
    (file : option pystr) : option pystr * bool :=
  let text := write_text (config_text api_key folder_path) in
  match outcome with
  | Written => (Some text, false)
  | OpenRefused => (file, true)
  | WriteFailed n => (Some (take n text), true)
  end.

(** A text without a line break. *)
Definition one_line (s : pystr) : Prop :=
  Forall (fun c => c <> LF /\ c <> CR) s.

(** ** What a trace reports as renamed *)

(** The new name a "RENAME SUCCESS" or "RETRY SUCCESS" line reports. *)
Definition announces (m : Msg) : option pystr :=
  match m with
  | MsgRenameSuccess new_filename
  | MsgRenameSuccessConflict new_filename
  | MsgRetrySuccess new_filename
  | MsgRetrySuccessConflict new_filename => Some new_filename
  | _ => None
  end.

Definition is_report (ev : Event) : bool :=
  match ev with
  | Log m _ => bool_decide (is_Some (announces m))
  | _ => false
  end.

(** The names reported as renamed by the batch loop, and by the recovery
    flow. *)
Definition batch_renamed (t : list Event) : list pystr :=
  omap (fun ev => match ev with
                  | Log (MsgRenameSuccess new_filename) _
                  | Log (MsgRenameSuccessConflict new_filename) _ =>
                      Some new_filename
                  | _ => None
                  end) t.

Definition retry_renamed (t : list Event) : list pystr :=
  omap (fun ev => match ev with
                  | Log (MsgRetrySuccess new_filename) _
                  | Log (MsgRetrySuccessConflict new_filename) _ =>
                      Some new_filename
                  | _ => None
                  end) t.

(** Every success line of [t] comes directly after the [os.rename] that
    succeeded in moving a file onto the name the line reports. *)
Definition reported_after_rename (t : list Event) : Prop :=
  forall i m tag new_filename,
    t !! i = Some (Log m tag) ->
    announces m = Some new_filename ->
    exists j src, i = S j /\ t !! j = Some (Rename src new_filename true).

(** [w'] continues the trace of [w] without a success line. *)
Definition unreported (w w' : World) : Prop :=
  exists T,
    trace w' = trace w ++ T /\ Forall (fun ev => is_report ev = false) T.

(** [w'] continues the trace of [w] with [b] success lines of the batch
    loop and [r] of the recovery flow, each directly after its rename. *)
Definition reports (b r : nat) (w w' : World) : Prop :=
  exists T,
    trace w' = trace w ++ T
    /\ reported_after_rename T
    /\ length (batch_renamed T) = b
    /\ length (retry_renamed T) = r.

(** The eligible names of a directory. *)
Definition eligible_names (d : gmap pystr fileid) : list pystr :=
  List.filter is_eligible (elements (dom d)).

(** * Part II: properties *)

(** ** The monad *)

Lemma wp_ret {A} (a : A) w Q Qe : Q a w -> wp (ret a) w Q Qe.
Proof. done. Qed.

Lemma wp_raise {A} e w (Q : A -> World -> Prop) Qe :
  Qe e w -> wp (raise e) w Q Qe.
Proof. done. Qed.

Lemma wp_bind {A B} (m : M A) (k : A -> M B) w Q Qe :
  wp m w (fun a w' => wp (k a) w' Q Qe) Qe -> wp (bind m k) w Q Qe.
Proof. unfold wp, bind. by destruct (m w). Qed.

Lemma wp_try {A} (body : M A) handler w Q Qe :
  wp body w Q (fun e w' => wp (handler e) w' Q Qe) ->
  wp (try_except body handler) w Q Qe.
Proof. unfold wp, try_except. by destruct (body w). Qed.

Lemma wp_mono {A} (m : M A) w (Q Q' : A -> World -> Prop)
    (Qe Qe' : exn -> World -> Prop) :
  wp m w Q Qe ->
  (forall a w', Q a w' -> Q' a w') ->
  (forall e w', Qe e w' -> Qe' e w') ->
  wp m w Q' Qe'.
Proof. unfold wp. destruct (m w); auto. Qed.

Lemma wp_returns {A} (m : M A) w Q :
  wp m w Q never -> exists a w', m w = Returns a w' /\ Q a w'.
Proof. unfold wp. destruct (m w); [eauto|done..]. Qed.

Lemma wp_of_returns {A} (m : M A) w a w' (Q : A -> World -> Prop) Qe :
  m w = Returns a w' -> Q a w' -> wp m w Q Qe.
Proof. unfold wp. by intros ->. Qed.

Lemma wp_of_raises {A} (m : M A) w e w' (Q : A -> World -> Prop)
    (Qe : exn -> World -> Prop) :
  m w = Raises e w' -> Qe e w' -> wp m w Q Qe.
Proof. unfold wp. by intros ->. Qed.

(** ** Strings *)

Lemma u_inj a b : u a = u b -> a = b.
Proof.
  unfold u. intros H.
  rewrite <- (string_of_list_ascii_of_string a),
          <- (string_of_list_ascii_of_string b).
  f_equal. revert H.
  generalize (list_ascii_of_string a) (list_ascii_of_string b).
  induction l as [|x l IH]; intros [|y l']; simpl; try done.
  intros [= Hxy Hl]. f_equal; [|by apply IH].
  by rewrite <- (ascii_N_embedding x), <- (ascii_N_embedding y), Hxy.
Qed.

Lemma py_str_of_int_inj i j : py_str_of_int i = py_str_of_int j -> i = j.
Proof. unfold py_str_of_int. intros H%u_inj. by apply (inj pretty). Qed.

Lemma candidate_inj base ext i j :
  candidate base ext i = candidate base ext j -> i = j.
Proof.
  destruct i as [|i], j as [|j]; unfold candidate; intros H; [done|..].
  - apply (f_equal length) in H. rewrite !length_app in H.
    change (length (u "_")) with 1 in H. lia.
  - apply (f_equal length) in H. rewrite !length_app in H.
    change (length (u "_")) with 1 in H. lia.
  - do 2 apply app_inv_head in H.
    apply app_inv_tail in H. by apply py_str_of_int_inj.
Qed.

(** ** The sanitizer *)

Lemma lstrip_head s c : head (lstrip s) = Some c -> is_space c = false.
Proof.
  induction s as [|x r IH]; simpl; [done|].
  destruct (is_space x) eqn:Hx; [done|].
  simpl. by intros [= <-].
Qed.

Lemma lstrip_last s c : last (lstrip s) = Some c -> last s = Some c.
Proof.
  induction s as [|x r IH]; simpl; [done|].
  destruct (is_space x) eqn:Hx; [|done].
  intros H. apply IH in H. destruct r; [done|]. by rewrite last_cons_cons.
Qed.

Lemma rstrip_nil_or_last s :
  rstrip s = [] \/ exists c, last (rstrip s) = Some c /\ is_space c = false.
Proof.
  induction s as [|x r IH]; simpl; [by left|].
  destruct (rstrip r) as [|y r'] eqn:Hr.
  - destruct (is_space x) eqn:Hx; [by left|]. right. by exists x.
  - right. destruct IH as [?|(c & Hc & Hs)]; [done|].
    exists c. by rewrite last_cons_cons.
Qed.

Lemma rstrip_last s c : last (rstrip s) = Some c -> is_space c = false.
Proof.
  destruct (rstrip_nil_or_last s) as [->|(d & Hd & Hs)]; [done|].
  rewrite Hd. by intros [= <-].
Qed.

Lemma rstrip_head s c :
  (forall d, head s = Some d -> is_space d = false) ->
  head (rstrip s) = Some c -> head s = Some c.
Proof.
  destruct s as [|x r]; simpl; [done|].
  intros Hx. specialize (Hx x eq_refl).
  destruct (rstrip r); rewrite ?Hx; simpl; done.
Qed.

Lemma strip_trimmed s : trimmed (strip s).
Proof.
  split; intros c Hc.
  - apply rstrip_head in Hc; [by eapply lstrip_head|].
    intros d. apply lstrip_head.
  - by eapply rstrip_last.
Qed.

Lemma lstrip_fixed s :
  (forall c, head s = Some c -> is_space c = false) -> lstrip s = s.
Proof.
  destruct s as [|x r]; simpl; [done|].
  intros H. by rewrite (H x eq_refl).
Qed.

Lemma rstrip_fixed s :
  (forall c, last s = Some c -> is_space c = false) -> rstrip s = s.
Proof.
  induction s as [|x r IH]; simpl; [done|].
  intros H. destruct r as [|y r'].
  - simpl. by rewrite (H x eq_refl).
  - rewrite IH; [done|]. intros c Hc. apply H. by rewrite last_cons_cons.
Qed.

Lemma strip_fixed s : trimmed s -> strip s = s.
Proof.
  intros [Hh Hl]. unfold strip. rewrite (lstrip_fixed s Hh).
  by apply rstrip_fixed.
Qed.

Lemma lstrip_Forall (P : char -> Prop) s : Forall P s -> Forall P (lstrip s).
Proof.
  induction 1 as [|x r Hx Hr IH]; simpl; [constructor|].
  destruct (is_space x); [done|by constructor].
Qed.

Lemma rstrip_Forall (P : char -> Prop) s : Forall P s -> Forall P (rstrip s).
Proof.
  induction 1 as [|x r Hx Hr IH]; simpl; [constructor|].
  destruct (rstrip r).
  - destruct (is_space x); by repeat constructor.
  - by constructor.
Qed.

Lemma strip_Forall (P : char -> Prop) s : Forall P s -> Forall P (strip s).
Proof. intros. by apply rstrip_Forall, lstrip_Forall. Qed.

Lemma re_sub_in_class s :
  Forall (fun c => in_class c = true) (re_sub_outside_class s).
Proof.
  apply List.Forall_forall. intros c Hc.
  by apply List.filter_In in Hc as [_ ?].
Qed.

Lemma re_sub_fixed s :
  Forall (fun c => in_class c = true) s -> re_sub_outside_class s = s.
Proof.
  induction 1 as [|x r Hx Hr IH]; simpl; [done|].
  rewrite Hx. by f_equal.
Qed.

Lemma sanitize_map t :
  sanitize t = List.map to_separator (strip (re_sub_outside_class t)).
Proof.
  unfold sanitize, replace. rewrite List.map_map.
  apply List.map_ext. intros c. unfold to_separator.
  destruct (c =? SPACE)%N eqn:Hs.
  - apply N.eqb_eq in Hs as ->. done.
  - done.
Qed.

Lemma to_separator_space c :
  is_space c = false -> is_space (to_separator c) = false.
Proof.
  unfold to_separator. intros H.
  destruct (c =? HYPHEN)%N; [done|]. by destruct (c =? SPACE)%N.
Qed.

Lemma to_separator_class c :
  in_class c = true ->
  in_class (to_separator c) = true
  /\ to_separator c <> SPACE /\ to_separator c <> HYPHEN.
Proof.
  unfold to_separator. intros H.
  destruct (c =? HYPHEN)%N eqn:Hh.
  { unfold in_class, is_word. rewrite N.eqb_refl, orb_true_r. done. }
  destruct (c =? SPACE)%N eqn:Hs.
  { unfold in_class, is_word. rewrite N.eqb_refl, orb_true_r. done. }
  apply N.eqb_neq in Hh, Hs. done.
Qed.

Lemma to_separator_fixed c :
  c <> SPACE -> c <> HYPHEN -> to_separator c = c.
Proof.
  intros Hs Hh. unfold to_separator.
  apply N.eqb_neq in Hs, Hh. by rewrite Hs, Hh.
Qed.

Lemma map_trimmed s : trimmed s -> trimmed (List.map to_separator s).
Proof.
  intros [Hh Hl]. split; intros c.
  - destruct s as [|x r]; simpl; [done|].
    intros [= <-]. apply to_separator_space. by apply Hh.
  - change (List.map to_separator s) with (to_separator <$> s).
    rewrite fmap_last. destruct (last s) as [d|] eqn:Hd; simpl; [|done].
    intros [= <-]. apply to_separator_space. by apply Hl.
Qed.

Lemma sanitize_chars t :
  Forall (fun c => in_class c = true /\ c <> SPACE /\ c <> HYPHEN)
         (sanitize t).
Proof.
  rewrite sanitize_map.
  change (List.map to_separator ?l) with (to_separator <$> l).
  apply Forall_fmap.
  eapply Forall_impl; [apply strip_Forall, re_sub_in_class|].
  intros c Hc. by apply to_separator_class.
Qed.


Lemma sanitize_trimmed t : trimmed (sanitize t).
Proof. rewrite sanitize_map. apply map_trimmed, strip_trimmed. Qed.

Lemma sanitize_fixed s :
  trimmed s ->
  Forall (fun c => in_class c = true /\ c <> SPACE /\ c <> HYPHEN) s ->
  sanitize s = s.
Proof.
  intros Ht Hc. rewrite sanitize_map.
  rewrite re_sub_fixed by (eapply Forall_impl; [exact Hc|]; by intros c [? _]).
  rewrite strip_fixed by done.
  clear Ht. induction Hc as [|x r (_ & Hs & Hh) _ IH]; simpl; [done|].
  rewrite to_separator_fixed by done. by f_equal.
Qed.

(** ** The conflict-resolving renamer *)

Lemma os_path_exists_eq path w :
  os_path_exists path w = Returns (path_exists w path) w.
Proof. done. Qed.

Lemma path_exists_listed w path :
  path_exists w path = true -> is_Some (fs w !! path).
Proof.
  unfold path_exists. intros H. apply andb_true_iff in H as [H _].
  by apply bool_decide_eq_true in H.
Qed.

Lemma path_exists_absent w path :
  fs w !! path = None -> path_exists w path = false.
Proof.
  unfold path_exists. intros ->.
  by rewrite bool_decide_false by (intros []; congruence).
Qed.

(** Where [os.stat] does not fail, a name exists exactly when it is
    listed. *)
Lemma path_exists_free w path :
  os_stat_fails E (clock w) path = false ->
  path_exists w path = false -> fs w !! path = None.
Proof.
  unfold path_exists. intros -> H. rewrite andb_true_r in H.
  apply bool_decide_eq_false in H.
  destruct (fs w !! path); [|done]. destruct H. eauto.
Qed.

Lemma os_rename_missing src dst w :
  fs w !! src = None ->
  os_rename src dst w =
    Raises OSError (mkWorld (fs w) (S (clock w))
                      (trace w ++ [Rename src dst false]) (gemini_client w)).
Proof. intros H. unfold os_rename, bind, tick, get_fs. simpl. by rewrite H. Qed.

Lemma os_rename_refused src dst c w :
  fs w !! src = Some c ->
  os_refuses E (clock w) src dst = true ->
  os_rename src dst w =
    Raises OSError (mkWorld (fs w) (S (clock w))
                      (trace w ++ [Rename src dst false]) (gemini_client w)).
Proof.
  intros H Hr. unfold os_rename, bind, tick, get_fs. simpl. by rewrite H, Hr.
Qed.

Lemma os_rename_done src dst c w :
  fs w !! src = Some c ->
  os_refuses E (clock w) src dst = false ->
  os_rename src dst w =
    Returns tt (mkWorld (<[dst := c]> (delete src (fs w))) (S (clock w))
                  (trace w ++ [Rename src dst true]) (gemini_client w)).
Proof.
  intros H Hr. unfold os_rename, bind, tick, get_fs. simpl. by rewrite H, Hr.
Qed.

(** Names that are all present and pairwise distinct are no more than
    the directory has entries. *)
Lemma candidates_bounded (d : gmap pystr fileid) base ext k :
  (forall j, j < k -> is_Some (d !! candidate base ext j)) -> k <= size d.
Proof.
  intros Hall.
  set (l := candidate base ext <$> seq 0 k).
  assert (NoDup l) as Hnd.
  { apply NoDup_fmap_2; [|apply NoDup_seq].
    intros i j. apply candidate_inj. }
  assert (list_to_set l ⊆ dom d) as Hsub.
  { intros x Hx. apply elem_of_list_to_set in Hx.
    apply list_elem_of_fmap in Hx as (j & -> & Hj).
    apply elem_of_seq in Hj. apply elem_of_dom, Hall. lia. }
  apply subseteq_size in Hsub.
  rewrite size_list_to_set, size_dom in Hsub by done.
  unfold l in Hsub. by rewrite length_fmap, length_seq in Hsub.
Qed.

Lemma conflict_loop_spec base ext w fuel k :
  (forall j, j < k -> path_exists w (candidate base ext j) = true) ->
  size (fs w) < fuel + k ->
  exists n,
    k <= n
    /\ conflict_loop fuel base ext (S k) (candidate base ext k) w
       = Returns (candidate base ext n, S n) w
    /\ path_exists w (candidate base ext n) = false
    /\ (forall j, j < n -> path_exists w (candidate base ext j) = true).
Proof.
  revert k. induction fuel as [|fuel IH]; intros k Hall Hfuel.
  { assert (k <= size (fs w)); [|lia].
    apply (candidates_bounded _ base ext).
    intros j Hj. by apply path_exists_listed, Hall. }
  simpl. unfold bind at 1. rewrite os_path_exists_eq.
  destruct (path_exists w (candidate base ext k)) eqn:Hk.
  - destruct (IH (S k)) as (n & Hn & Hrun & Hfree & Hbelow).
    + intros j Hj. destruct (decide (j = k)) as [->|]; [done|].
      apply Hall. lia.
    + lia.
    + exists n. split; [lia|]. split; [|done].
      rewrite Nat.add_1_r. exact Hrun.
  - exists k. split; [lia|]. by split.
Qed.

Lemma conflict_loop_start base ext w :
  exists n,
    conflict_loop (S (size (fs w))) base ext 1 (base ++ ext) w
      = Returns (candidate base ext n, S n) w
    /\ path_exists w (candidate base ext n) = false
    /\ (forall j, j < n -> path_exists w (candidate base ext j) = true)
    /\ n <= size (fs w).
Proof.
  destruct (conflict_loop_spec base ext w (S (size (fs w))) 0)
    as (n & _ & Hrun & Hfree & Hbelow); [intros j; lia|lia|].
  exists n. repeat split; try done.
  apply (candidates_bounded _ base ext).
  intros j Hj. by apply path_exists_listed, Hbelow.
Qed.

Lemma rename_to_description_eq src ext short_title w :
  let base := sanitize short_title ++ PROCESSED_SUFFIX in
  exists n,
    path_exists w (candidate base ext n) = false
    /\ (forall j, j < n -> path_exists w (candidate base ext j) = true)
    /\ rename_to_description src ext short_title w
       = (os_rename src (candidate base ext n) ;;
          ret (candidate base ext n, S n)) w.
Proof.
  intros base.
  destruct (conflict_loop_start base ext w) as (n & Hrun & Hfree & Hbelow & _).
  exists n. split; [done|]. split; [done|].
  unfold rename_to_description. fold base.
  unfold bind at 1. unfold get_fs at 1.
  unfold bind at 1. by rewrite Hrun.
Qed.


(** C7. Sanitizing an already sanitized title changes nothing. *)
Theorem sanitize_idempotent s : sanitize (sanitize s) = sanitize s.
Proof. apply sanitize_fixed; [apply sanitize_trimmed|apply sanitize_chars]. Qed.

(** C6, as the code has it. The sanitizer is a total function; its result
    holds only word characters and white space, and no space and no hyphen:
    after the deletion and the trimming, each space and each hyphen is
    replaced by one underscore, so a run of them becomes as many underscores
    and the length does not change; the empty title gives the empty
    string. *)
Theorem sanitize_replaces_each_separator t :
  Forall (fun c => (is_word c = true \/ is_space c = true)
                   /\ c <> SPACE /\ c <> HYPHEN) (sanitize t)
  /\ sanitize t = List.map to_separator (strip (re_sub_outside_class t))
  /\ length (sanitize t) = length (strip (re_sub_outside_class t))
  /\ sanitize [] = [].
Proof.
  split; [|split; [|split]].
  - eapply Forall_impl; [apply sanitize_chars|].
    intros c (Hc & Hs & Hh). split; [|done].
    unfold in_class in Hc. apply N.eqb_neq in Hh. rewrite Hh in Hc.
    rewrite orb_false_r in Hc. by apply orb_true_iff in Hc.
  - apply sanitize_map.
  - by rewrite sanitize_map, length_map.
  - done.
Qed.

(** ** The single-file recovery flow *)

Lemma choose_temp_name_eq original_filename w :
  choose_temp_name original_filename w =
    Returns (temp_name (uuid4_hex8 E (clock w)) (splitext_ext original_filename))
      (mkWorld (fs w) (S (clock w))
         ((trace w ++ [Log (MsgRetryAttempt original_filename) retry])
            ++ [Uuid4])
         (gemini_client w)).
Proof. done. Qed.

Lemma choose_temp_name_frame original_filename w temp_filename w0 :
  choose_temp_name original_filename w = Returns temp_filename w0 ->
  fs w0 = fs w /\ gemini_client w0 = gemini_client w.
Proof. rewrite choose_temp_name_eq. by intros [= <- <-]. Qed.

Lemma isolating_returns original_filename temp_filename w0 w1 :
  isolating original_filename temp_filename w0 = Returns tt w1 ->
  exists c,
    fs w0 !! original_filename = Some c
    /\ os_refuses E (clock w0) original_filename temp_filename = false
    /\ fs w1 = <[temp_filename := c]> (delete original_filename (fs w0))
    /\ gemini_client w1 = gemini_client w0.
Proof.
  unfold isolating. unfold bind at 1.
  destruct (fs w0 !! original_filename) as [c|] eqn:Hsrc.
  - destruct (os_refuses E (clock w0) original_filename temp_filename) eqn:Hr.
    + by rewrite (os_rename_refused _ _ c).
    + rewrite (os_rename_done _ _ c) by done.
      intros [= <-]. by exists c.
  - by rewrite os_rename_missing.
Qed.

Lemma isolating_raises original_filename temp_filename w0 e w1 :
  isolating original_filename temp_filename w0 = Raises e w1 ->
  e = OSError
  /\ w1 = mkWorld (fs w0) (S (clock w0))
            (trace w0 ++ [Rename original_filename temp_filename false])
            (gemini_client w0).
Proof.
  unfold isolating. unfold bind at 1.
  destruct (fs w0 !! original_filename) as [c|] eqn:Hsrc.
  - destruct (os_refuses E (clock w0) original_filename temp_filename) eqn:Hr.
    + rewrite (os_rename_refused _ _ c) by done. by intros [= <- <-].
    + by rewrite (os_rename_done _ _ c).
  - rewrite os_rename_missing by done. by intros [= <- <-].
Qed.

(** Requesting reads the directory and never changes it. *)
Lemma requesting_frame temp_filename w :
  wp (requesting temp_filename) w
    (fun short_title w' =>
       short_title <> [] /\ fs w' = fs w
       /\ gemini_client w' = gemini_client w)
    (fun _ w' => fs w' = fs w /\ gemini_client w' = gemini_client w).
Proof.
  unfold wp, requesting, Image_open, request_single.
  unfold bind, tick, get_fs, emit, raise, ret.
  simpl. destruct (fs w !! temp_filename); simpl; [|done].
  destruct (image_unreadable E (clock w) temp_filename); simpl; [done|].
  destruct (single_reply E (S (clock w))) as [e|[|[|x t]|[|]]]; simpl; done.
Qed.

Lemma rollback_restores original_filename temp_filename e c w :
  fs w !! temp_filename = Some c ->
  os_refuses E (clock w) temp_filename original_filename = false ->
  rollback original_filename temp_filename e w =
    Returns false
      (mkWorld (<[original_filename := c]> (delete temp_filename (fs w)))
         (S (clock w))
         (((trace w ++ [Log (MsgRetryFailed original_filename e) error])
             ++ [Rename temp_filename original_filename true])
            ++ [Log (MsgRestored original_filename) error])
         (gemini_client w)).
Proof.
  intros Hsrc Hr. unfold rollback, log_message.
  unfold bind at 1. unfold emit at 1.
  unfold bind at 1. unfold try_except. unfold bind at 1.
  by rewrite (os_rename_done _ _ c).
Qed.

Lemma rollback_fatal original_filename temp_filename e w :
  fs w !! temp_filename = None
  \/ os_refuses E (clock w) temp_filename original_filename = true ->
  rollback original_filename temp_filename e w =
    Returns false
      (mkWorld (fs w) (S (clock w))
         (((trace w ++ [Log (MsgRetryFailed original_filename e) error])
             ++ [Rename temp_filename original_filename false])
            ++ [Log MsgFatalRestore error])
         (gemini_client w)).
Proof.
  intros Hcase. unfold rollback, log_message.
  unfold bind at 1. unfold emit at 1.
  unfold bind at 1. unfold try_except. unfold bind at 1.
  destruct (fs w !! temp_filename) as [c|] eqn:Hsrc.
  - destruct Hcase as [?|Hr]; [done|].
    by rewrite (os_rename_refused _ _ c).
  - by rewrite os_rename_missing.
Qed.

Lemma retry_failed_file_unfold original_filename w :
  gemini_client w = true ->
  retry_failed_file original_filename w =
    (temp_filename <- choose_temp_name original_filename ;;
     recovery_attempt original_filename temp_filename) w.
Proof.
  intros Hc. unfold retry_failed_file. unfold bind at 1.
  unfold get_client. by rewrite Hc.
Qed.

Lemma requesting_raises_frame temp_filename w1 e w2 :
  requesting temp_filename w1 = Raises e w2 ->
  fs w2 = fs w1 /\ gemini_client w2 = gemini_client w1.
Proof.
  intros H. pose proof (requesting_frame temp_filename w1) as Hf.
  unfold wp in Hf. by rewrite H in Hf.
Qed.

Lemma requesting_returns_frame temp_filename w1 short_title w2 :
  requesting temp_filename w1 = Returns short_title w2 ->
  short_title <> [] /\ fs w2 = fs w1 /\ gemini_client w2 = gemini_client w1.
Proof.
  intros H. pose proof (requesting_frame temp_filename w1) as Hf.
  unfold wp in Hf. by rewrite H in Hf.
Qed.

Lemma retry_failed_file_run original_filename w temp_filename w0 :
  gemini_client w = true ->
  choose_temp_name original_filename w = Returns temp_filename w0 ->
  retry_failed_file original_filename w
  = recovery_attempt original_filename temp_filename w0.
Proof.
  intros Hc Ht. rewrite retry_failed_file_unfold by done.
  unfold bind at 1. by rewrite Ht.
Qed.

Lemma recovery_attempt_isolating_raises original_filename temp_filename w0 e w1 :
  isolating original_filename temp_filename w0 = Raises e w1 ->
  recovery_attempt original_filename temp_filename w0
  = rollback original_filename temp_filename e w1.
Proof.
  intros H. unfold recovery_attempt, try_except. unfold bind at 1.
  by rewrite H.
Qed.

Lemma recovery_attempt_requesting_raises
    original_filename temp_filename w0 w1 e w2 :
  isolating original_filename temp_filename w0 = Returns tt w1 ->
  requesting temp_filename w1 = Raises e w2 ->
  recovery_attempt original_filename temp_filename w0
  = rollback original_filename temp_filename e w2.
Proof.
  intros H1 H2. unfold recovery_attempt, try_except. unfold bind at 1.
  rewrite H1. unfold bind at 1. by rewrite H2.
Qed.

Lemma restored_directory (d : gmap pystr fileid) original_filename temp_filename c :
  <[original_filename := c]>
    (delete temp_filename
       (<[temp_filename := c]> (delete original_filename d)))
  = <[original_filename := c]> (delete temp_filename d).
Proof.
  apply map_eq. intros k.
  destruct (decide (k = original_filename)) as [->|Hk].
  - by rewrite !lookup_insert_eq.
  - rewrite !lookup_insert_ne by done.
    destruct (decide (k = temp_filename)) as [->|Hk'].
    + by rewrite !lookup_delete_eq.
    + rewrite !lookup_delete_ne by done.
      rewrite lookup_insert_ne by done. by rewrite lookup_delete_ne.
Qed.

(** C3. When Isolating has succeeded and Requesting raises, the flow
    returns failure; if the restoring rename goes through, the file is back
    under its original name, no file is left under the temporary name and
    every other entry is as before the flow, and "File restored" is the last
    message; only if the restoring rename is refused does the file stay
    under the temporary name, and then the last message is the distinct
    "FATAL: Could not restore file name". *)
Theorem recovery_rollback_restores_original
    original_filename c w temp_filename w0 w1 e w2 :
  gemini_client w = true ->
  fs w !! original_filename = Some c ->
  choose_temp_name original_filename w = Returns temp_filename w0 ->
  isolating original_filename temp_filename w0 = Returns tt w1 ->
  requesting temp_filename w1 = Raises e w2 ->
  exists w',
    retry_failed_file original_filename w = Returns false w'
    /\ if os_refuses E (clock w2) temp_filename original_filename
       then fs w' !! temp_filename = Some c
            /\ (temp_filename <> original_filename ->
                fs w' !! original_filename = None)
            /\ last (trace w') = Some (Log MsgFatalRestore error)
       else fs w' !! original_filename = Some c
            /\ (temp_filename <> original_filename ->
                fs w' !! temp_filename = None)
            /\ fs w' = <[original_filename := c]> (delete temp_filename (fs w))
            /\ (fs w !! temp_filename = None -> fs w' = fs w)
            /\ last (trace w') = Some (Log (MsgRestored original_filename) error).
Proof.
  intros Hclient Horig Htemp Hiso Hreq.
  rewrite (retry_failed_file_run _ _ _ _ Hclient Htemp).
  rewrite (recovery_attempt_requesting_raises _ _ _ _ _ _ Hiso Hreq).
  apply choose_temp_name_frame in Htemp as [Hfs0 _].
  apply isolating_returns in Hiso as (c' & Hc' & _ & Hfs1 & _).
  rewrite Hfs0 in Hc', Hfs1. assert (c' = c) as -> by congruence.
  apply requesting_raises_frame in Hreq as [Hfs2 _].
  rewrite Hfs1 in Hfs2.
  assert (fs w2 !! temp_filename = Some c) as Htmp.
  { rewrite Hfs2. apply lookup_insert_eq. }
  destruct (os_refuses E (clock w2) temp_filename original_filename) eqn:Hr.
  - rewrite rollback_fatal by auto. eexists. split; [done|]. simpl.
    split; [done|]. split; [|by rewrite last_snoc].
    intros Hne. rewrite Hfs2.
    rewrite lookup_insert_ne by done. apply lookup_delete_eq.
  - rewrite (rollback_restores _ _ _ c) by done.
    eexists. split; [done|]. simpl.
    rewrite Hfs2, restored_directory.
    split; [apply lookup_insert_eq|].
    split.
    { intros Hne. rewrite lookup_insert_ne by done. apply lookup_delete_eq. }
    split; [done|]. split; [|by rewrite last_snoc].
    intros Hnone. rewrite delete_id by done. by apply insert_id.
Qed.


Lemma rename_to_description_done src ext short_title c w :
  fs w !! src = Some c ->
  (forall dst, os_refuses E (clock w) src dst = false) ->
  let base := sanitize short_title ++ PROCESSED_SUFFIX in
  exists n,
    path_exists w (candidate base ext n) = false
    /\ (forall j, j < n -> path_exists w (candidate base ext j) = true)
    /\ rename_to_description src ext short_title w
       = Returns (candidate base ext n, S n)
           (mkWorld (<[candidate base ext n := c]> (delete src (fs w)))
              (S (clock w))
              (trace w ++ [Rename src (candidate base ext n) true])
              (gemini_client w)).
Proof.
  intros Hsrc Hok base.
  destruct (rename_to_description_eq src ext short_title w)
    as (n & Hfree & Hbelow & Heq).
  exists n. split; [done|]. split; [done|].
  rewrite Heq. unfold bind. by rewrite (os_rename_done _ _ c).
Qed.

Lemma rename_described_done original_filename short_title count failed w
    new_filename counter w1 :
  rename_to_description original_filename (splitext_ext original_filename)
    short_title w = Returns (new_filename, counter) w1 ->
  rename_described original_filename short_title count failed w
  = Returns (count + 1, failed)
      (mkWorld (fs w1) (clock w1)
         (trace w1 ++
            [Log (if 1 <? counter
                  then MsgRenameSuccessConflict new_filename
                  else MsgRenameSuccess new_filename) success])
         (gemini_client w1)).
Proof.
  intros H. unfold rename_described, try_except. unfold bind at 1.
  rewrite H. cbv zeta. unfold fst, snd. by destruct (1 <? counter).
Qed.

Lemma rename_described_failed original_filename short_title count failed w
    e w1 :
  rename_to_description original_filename (splitext_ext original_filename)
    short_title w = Raises e w1 ->
  rename_described original_filename short_title count failed w
  = Returns (count, failed ++ [original_filename])
      (mkWorld (fs w1) (clock w1)
         (trace w1 ++ [Log (MsgRenameError original_filename) error])
         (gemini_client w1)).
Proof.
  intros H. unfold rename_described, try_except. unfold bind at 1.
  by rewrite H.
Qed.

Lemma renaming_done temp_filename ext short_title w new_filename counter w1 :
  rename_to_description temp_filename ext short_title w
    = Returns (new_filename, counter) w1 ->
  renaming temp_filename ext short_title w
  = Returns true
      (mkWorld (fs w1) (clock w1)
         (trace w1 ++
            [Log (if 1 <? counter
                  then MsgRetrySuccessConflict new_filename
                  else MsgRetrySuccess new_filename) success])
         (gemini_client w1)).
Proof.
  intros H. unfold renaming. unfold bind at 1.
  rewrite H. cbv zeta. unfold fst, snd. by destruct (1 <? counter).
Qed.

(** C10, as the code has it. A title that sanitizes to the empty string
    still names the file: the batch path renames it to [_DESC] plus the
    original extension, or to [_DESC_1], [_DESC_2], ... at the first
    counter for which [os.path.exists] answers no, and counts it as
    renamed; the recovery flow does the same with the title that Requesting
    returned, which is never the empty title. *)
Theorem empty_sanitized_title_still_renames short_title :
  sanitize short_title = [] ->
  (forall original_filename c count failed w,
     fs w !! original_filename = Some c ->
     (forall dst, os_refuses E (clock w) original_filename dst = false) ->
     exists n w',
       let new_filename :=
         candidate PROCESSED_SUFFIX (splitext_ext original_filename) n in
       rename_described original_filename short_title count failed w
         = Returns (count + 1, failed) w'
       /\ path_exists w new_filename = false
       /\ (forall j, j < n ->
             path_exists w (candidate PROCESSED_SUFFIX
                              (splitext_ext original_filename) j) = true)
       /\ fs w' = <[new_filename := c]> (delete original_filename (fs w)))
  /\ (forall original_filename c w temp_filename w0 w1 w2,
        gemini_client w = true ->
        fs w !! original_filename = Some c ->
        choose_temp_name original_filename w = Returns temp_filename w0 ->
        isolating original_filename temp_filename w0 = Returns tt w1 ->
        requesting temp_filename w1 = Returns short_title w2 ->
        (forall dst, os_refuses E (clock w2) temp_filename dst = false) ->
        exists n w',
          let new_filename :=
            candidate PROCESSED_SUFFIX (splitext_ext original_filename) n in
          retry_failed_file original_filename w = Returns true w'
          /\ short_title <> []
          /\ path_exists w2 new_filename = false
          /\ (forall j, j < n ->
                path_exists w2 (candidate PROCESSED_SUFFIX
                                  (splitext_ext original_filename) j) = true)
          /\ fs w' = <[new_filename := c]> (delete temp_filename (fs w2))).
Proof.
  intros Hempty. split.
  - intros original_filename c count failed w Hsrc Hok.
    destruct (rename_to_description_done original_filename
                (splitext_ext original_filename) short_title c w Hsrc Hok)
      as (n & Hfree & Hbelow & Heq).
    rewrite Hempty in Hfree, Hbelow, Heq. simpl in Hfree, Hbelow, Heq.
    exists n. eexists. cbv zeta.
    rewrite (rename_described_done _ _ _ _ _ _ _ _ Heq).
    split; [reflexivity|]. simpl. done.
  - intros original_filename c w temp_filename w0 w1 w2
      Hclient Horig Htemp Hiso Hreq Hok.
    rewrite (retry_failed_file_run _ _ _ _ Hclient Htemp).
    apply choose_temp_name_frame in Htemp as [Hfs0 _].
    pose proof Hiso as Hiso'.
    apply isolating_returns in Hiso' as (c' & Hc' & _ & Hfs1 & _).
    rewrite Hfs0 in Hc', Hfs1. assert (c' = c) as -> by congruence.
    pose proof Hreq as Hreq'.
    apply requesting_returns_frame in Hreq' as (Hne & Hfs2 & _).
    assert (fs w2 !! temp_filename = Some c) as Htmp.
    { rewrite Hfs2, Hfs1. apply lookup_insert_eq. }
    destruct (rename_to_description_done temp_filename
                (splitext_ext original_filename) short_title c w2 Htmp Hok)
      as (n & Hfree & Hbelow & Heq).
    rewrite Hempty in Hfree, Hbelow, Heq. simpl in Hfree, Hbelow, Heq.
    exists n. eexists. cbv zeta.
    unfold recovery_attempt, try_except. unfold bind at 1. rewrite Hiso.
    unfold bind at 1. rewrite Hreq.
    rewrite (renaming_done _ _ _ _ _ _ _ Heq).
    split; [reflexivity|]. simpl. done.
Qed.

(** ** The batch description flow *)

Lemma requests_and_sleeps_app t1 t2 :
  requests_and_sleeps (t1 ++ t2)
  = requests_and_sleeps t1 ++ requests_and_sleeps t2.
Proof. apply List.filter_app. Qed.

Section BatchAttempts.

Variable image_batch : list (pystr * fileid).
Let names := List.map fst image_batch.

Lemma batch_attempts_retry fuel retries w :
  retries + 1 < MAX_RETRIES ->
  batch_reply E (clock w) names = inl APIError ->
  exists w1,
    batch_attempts (S fuel) retries image_batch w
      = batch_attempts fuel (retries + 1) image_batch w1
    /\ fs w1 = fs w /\ clock w1 = S (clock w)
    /\ requests_and_sleeps (trace w1)
       = requests_and_sleeps (trace w)
           ++ [BatchRequest names; Sleep RETRY_DELAY].
Proof.
  intros Hlt Hreply. simpl.
  assert ((retries <? MAX_RETRIES) = true) as -> by (apply Nat.ltb_lt; lia).
  unfold try_except, request_batch, log_message.
  unfold bind at 1. unfold emit at 1. unfold bind at 1. unfold bind at 1.
  unfold tick at 1. unfold bind at 1. unfold emit at 1. simpl.
  fold names. rewrite Hreply. unfold raise at 1.
  assert ((retries + 1 <? MAX_RETRIES) = true) as -> by (apply Nat.ltb_lt; lia).
  unfold bind at 1. unfold emit at 1.
  unfold bind at 1. unfold emit at 1.
  unfold bind at 1. unfold time_sleep, emit at 1. simpl.
  eexists. split; [reflexivity|]. simpl. repeat split.
  rewrite !requests_and_sleeps_app. simpl. by rewrite <- !app_assoc.
Qed.

Lemma batch_attempts_exhausted fuel retries w :
  retries + 1 = MAX_RETRIES ->
  batch_reply E (clock w) names = inl APIError ->
  exists w1,
    batch_attempts (S fuel) retries image_batch w = Returns None w1
    /\ fs w1 = fs w
    /\ requests_and_sleeps (trace w1)
       = requests_and_sleeps (trace w) ++ [BatchRequest names].
Proof.
  intros Hlt Hreply. simpl.
  assert ((retries <? MAX_RETRIES) = true) as -> by (apply Nat.ltb_lt; lia).
  unfold try_except, request_batch, log_message.
  unfold bind at 1. unfold emit at 1. unfold bind at 1. unfold bind at 1.
  unfold tick at 1. unfold bind at 1. unfold emit at 1. simpl.
  fold names. rewrite Hreply. unfold raise at 1.
  assert ((retries + 1 <? MAX_RETRIES) = false) as ->
    by (apply Nat.ltb_ge; lia).
  unfold bind at 1. unfold emit at 1. simpl.
  eexists. split; [reflexivity|]. simpl. split; [done|].
  rewrite !requests_and_sleeps_app. simpl. by rewrite <- !app_assoc.
Qed.

Lemma batch_attempts_settled fuel retries w :
  retries < MAX_RETRIES ->
  batch_reply E (clock w) names <> inl APIError ->
  exists w1,
    batch_attempts (S fuel) retries image_batch w
      = Returns (batch_result (batch_reply E (clock w) names)) w1
    /\ fs w1 = fs w
    /\ requests_and_sleeps (trace w1)
       = requests_and_sleeps (trace w) ++ [BatchRequest names].
Proof.
  intros Hlt Hreply. simpl.
  assert ((retries <? MAX_RETRIES) = true) as -> by (apply Nat.ltb_lt; lia).
  unfold try_except, request_batch, log_message.
  unfold bind at 1. unfold emit at 1. unfold bind at 1. unfold bind at 1.
  unfold tick at 1. unfold bind at 1. unfold emit at 1. simpl.
  fold names.
  destruct (batch_reply E (clock w) names) as [e|descriptions]; simpl.
  - destruct e; try congruence;
      (unfold bind at 1; unfold emit at 1; simpl;
       eexists; split; [reflexivity|]; simpl; split; [done|];
       rewrite !requests_and_sleeps_app; simpl; by rewrite <- !app_assoc).
  - eexists. split; [reflexivity|]. simpl. split; [done|].
    rewrite !requests_and_sleeps_app. simpl. by rewrite <- !app_assoc.
Qed.

Lemma batch_attempts_run k : forall fuel retries w,
  k < fuel ->
  retries + k < MAX_RETRIES ->
  (forall j, j < k -> batch_reply E (clock w + j) names = inl APIError) ->
  batch_reply E (clock w + k) names <> inl APIError ->
  exists w',
    batch_attempts fuel retries image_batch w
      = Returns (batch_result (batch_reply E (clock w + k) names)) w'
    /\ fs w' = fs w
    /\ requests_and_sleeps (trace w')
       = requests_and_sleeps (trace w) ++ retried_requests names k.
Proof.
  induction k as [|k IH]; intros fuel retries w Hfuel Hlt Hfail Hlast.
  - destruct fuel as [|fuel]; [lia|].
    rewrite Nat.add_0_r in *. by apply batch_attempts_settled; [lia|].
  - destruct fuel as [|fuel]; [lia|].
    destruct (batch_attempts_retry fuel retries w) as (w1 & -> & Hfs & Hcl & Hio).
    { lia. }
    { specialize (Hfail 0). rewrite Nat.add_0_r in Hfail. apply Hfail. lia. }
    destruct (IH fuel (retries + 1) w1) as (w' & -> & Hfs' & Hio').
    { lia. }
    { lia. }
    { intros j Hj. rewrite Hcl.
      replace (S (clock w) + j) with (clock w + S j) by lia.
      apply Hfail. lia. }
    { rewrite Hcl. by replace (S (clock w) + k) with (clock w + S k) by lia. }
    exists w'. rewrite Hcl.
    replace (S (clock w) + k) with (clock w + S k) by lia.
    split; [done|]. split; [congruence|].
    rewrite Hio', Hio. by rewrite <- app_assoc.
Qed.

Lemma batch_attempts_give_up k : forall fuel retries w,
  k < fuel ->
  retries + k + 1 = MAX_RETRIES ->
  (forall j, j <= k -> batch_reply E (clock w + j) names = inl APIError) ->
  exists w',
    batch_attempts fuel retries image_batch w = Returns None w'
    /\ fs w' = fs w
    /\ requests_and_sleeps (trace w')
       = requests_and_sleeps (trace w) ++ retried_requests names k.
Proof.
  induction k as [|k IH]; intros fuel retries w Hfuel Hlt Hfail.
  - destruct fuel as [|fuel]; [lia|].
    apply batch_attempts_exhausted; [lia|].
    specialize (Hfail 0). rewrite Nat.add_0_r in Hfail. apply Hfail. lia.
  - destruct fuel as [|fuel]; [lia|].
    destruct (batch_attempts_retry fuel retries w) as (w1 & -> & Hfs & Hcl & Hio).
    { lia. }
    { specialize (Hfail 0). rewrite Nat.add_0_r in Hfail. apply Hfail. lia. }
    destruct (IH fuel (retries + 1) w1) as (w' & -> & Hfs' & Hio').
    { lia. }
    { lia. }
    { intros j Hj. rewrite Hcl.
      replace (S (clock w) + j) with (clock w + S j) by lia.
      apply Hfail. lia. }
    exists w'. split; [done|]. split; [congruence|].
    rewrite Hio', Hio. by rewrite <- app_assoc.
Qed.

End BatchAttempts.

Lemma get_batch_info_ready image_batch w :
  gemini_client w = true ->
  get_batch_info_from_images image_batch w
  = batch_attempts (S MAX_RETRIES) 0 image_batch w.
Proof.
  intros Hc. unfold get_batch_info_from_images. unfold bind at 1.
  unfold get_client. by rewrite Hc.
Qed.

(** C4. With the client in place, the batch flow sends the request again
    only after a remote-service error, each time after a pause of
    [RETRY_DELAY] = 10 seconds; the first reply that is not such an error
    ends the flow at once: with the mapping when the response parses, with
    the batch-failure signal [None] when it is malformed or violates the
    schema, and no further request is sent; after [MAX_RETRIES] = 3
    remote-service errors in a row the flow returns [None], having sent
    three requests and paused twice. *)
Theorem batch_flow_retry_policy image_batch w :
  gemini_client w = true ->
  let names := List.map fst image_batch in
  let reply j := batch_reply E (clock w + j) names in
  (forall k,
     k < MAX_RETRIES ->
     (forall j, j < k -> reply j = inl APIError) ->
     reply k <> inl APIError ->
     exists w',
       get_batch_info_from_images image_batch w
         = Returns (batch_result (reply k)) w'
       /\ fs w' = fs w
       /\ requests_and_sleeps (trace w')
          = requests_and_sleeps (trace w) ++ retried_requests names k)
  /\ ((forall j, j < MAX_RETRIES -> reply j = inl APIError) ->
      exists w',
        get_batch_info_from_images image_batch w = Returns None w'
        /\ fs w' = fs w
        /\ requests_and_sleeps (trace w')
           = requests_and_sleeps (trace w)
               ++ [BatchRequest names; Sleep 10;
                   BatchRequest names; Sleep 10;
                   BatchRequest names])
  /\ MAX_RETRIES = 3 /\ RETRY_DELAY = 10.
Proof.
  intros Hc names reply. rewrite get_batch_info_ready by done.
  split; [|split; [|done]].
  - intros k Hk Hfail Hlast.
    apply batch_attempts_run; try done; unfold MAX_RETRIES in *; lia.
  - intros Hfail.
    destruct (batch_attempts_give_up image_batch 2 (S MAX_RETRIES) 0 w)
      as (w' & Hrun & Hfs & Hio); [unfold MAX_RETRIES; lia|done|..].
    + intros j Hj. apply Hfail. unfold MAX_RETRIES. lia.
    + by exists w'.
Qed.

(** ** Termination and the retry announcements *)

Lemma same_retries_refl w : same_retries w w.
Proof. done. Qed.

Lemma same_retries_trans w1 w2 w3 :
  same_retries w1 w2 -> same_retries w2 w3 -> same_retries w1 w3.
Proof. intros [? ?] [? ?]. split; congruence. Qed.

Lemma retried_names_app t1 t2 :
  retried_names (t1 ++ t2) = retried_names t1 ++ retried_names t2.
Proof. apply omap_app. Qed.

Lemma quiet_returns_quiet {A} (m : M A) : quiet_returns m -> quiet m.
Proof. intros H w. eapply wp_mono; [apply H|done|done]. Qed.

Lemma quiet_ret {A} (a : A) : quiet_returns (ret a).
Proof. intros w. apply wp_ret, same_retries_refl. Qed.

Lemma quiet_raise {A} e : quiet (raise (A:=A) e).
Proof. intros w. apply wp_raise, same_retries_refl. Qed.

Lemma quiet_bind {A B} (m : M A) (k : A -> M B) :
  quiet m -> (forall a, quiet (k a)) -> quiet (bind m k).
Proof.
  intros Hm Hk w. apply wp_bind.
  eapply wp_mono; [apply Hm| |done].
  intros a w' Hs. eapply wp_mono; [apply Hk|..];
    intros ? w'' Hs'; cbv beta in *; exact (same_retries_trans _ _ _ Hs Hs').
Qed.

Lemma quiet_returns_bind {A B} (m : M A) (k : A -> M B) :
  quiet_returns m -> (forall a, quiet_returns (k a)) ->
  quiet_returns (bind m k).
Proof.
  intros Hm Hk w. apply wp_bind.
  eapply wp_mono; [apply Hm| |done].
  intros a w' Hs. eapply wp_mono; [apply Hk| |done].
  intros ? w'' Hs'; cbv beta in *; exact (same_retries_trans _ _ _ Hs Hs').
Qed.

Lemma quiet_try {A} (body : M A) handler :
  quiet body -> (forall e, quiet (handler e)) ->
  quiet (try_except body handler).
Proof.
  intros Hb Hh w. apply wp_try.
  eapply wp_mono; [apply Hb|done|].
  intros e w' Hs. eapply wp_mono; [apply Hh|..];
    intros ? w'' Hs'; cbv beta in *; exact (same_retries_trans _ _ _ Hs Hs').
Qed.

Lemma quiet_returns_try {A} (body : M A) handler :
  quiet body -> (forall e, quiet_returns (handler e)) ->
  quiet_returns (try_except body handler).
Proof.
  intros Hb Hh w. apply wp_try.
  eapply wp_mono; [apply Hb|done|].
  intros e w' Hs. eapply wp_mono; [apply Hh| |done].
  intros ? w'' Hs'; cbv beta in *; exact (same_retries_trans _ _ _ Hs Hs').
Qed.

Lemma quiet_emit ev :
  retried_names [ev] = [] -> quiet_returns (emit ev).
Proof.
  intros Hev w. unfold wp, emit. split; [done|]. simpl.
  by rewrite retried_names_app, Hev, app_nil_r.
Qed.

Lemma quiet_log m tag :
  (forall f, m <> MsgRetryAttempt f) -> quiet_returns (log_message m tag).
Proof. intros Hm. apply quiet_emit. destruct m; try done. by destruct (Hm original_filename). Qed.

Lemma quiet_tick : quiet_returns tick.
Proof. intros w. by split. Qed.

Lemma quiet_get_fs : quiet_returns get_fs.
Proof. intros w. by split. Qed.

Lemma quiet_get_client : quiet_returns get_client.
Proof. intros w. by split. Qed.

Lemma quiet_set_fs d : quiet_returns (set_fs d).
Proof. intros w. by split. Qed.

Create HintDb quiet.

Ltac quiet_step :=
  lazymatch goal with
  | |- quiet_returns (ret _) => apply quiet_ret
  | |- quiet (raise _) => apply quiet_raise
  | |- quiet_returns tick => apply quiet_tick
  | |- quiet_returns get_fs => apply quiet_get_fs
  | |- quiet_returns get_client => apply quiet_get_client
  | |- quiet_returns (set_fs _) => apply quiet_set_fs
  | |- quiet_returns (emit _) => apply quiet_emit; reflexivity
  | |- quiet_returns (time_sleep _) => apply quiet_emit; reflexivity
  | |- quiet_returns (log_message _ _) =>
      apply quiet_log; intros ?; discriminate
  | |- quiet_returns (bind _ _) => apply quiet_returns_bind; [|intros ?]
  | |- quiet (bind _ _) => apply quiet_bind; [|intros ?]
  | |- quiet_returns (try_except _ _) => apply quiet_returns_try; [|intros ?]
  | |- quiet (try_except _ _) => apply quiet_try; [|intros ?]
  | |- quiet_returns (match ?x with _ => _ end) => destruct x
  | |- quiet (match ?x with _ => _ end) => destruct x
  | |- quiet_returns _ => solve [auto with quiet]
  | |- quiet _ => first [solve [auto with quiet] | apply quiet_returns_quiet]
  end.

Ltac quiet_auto := repeat quiet_step.

Lemma quiet_os_rename src dst : quiet (os_rename src dst).
Proof. unfold os_rename. quiet_auto. Qed.

Lemma quiet_Image_open path : quiet (Image_open path).
Proof. unfold Image_open. quiet_auto. Qed.

Lemma quiet_request_batch filenames : quiet (request_batch filenames).
Proof. unfold request_batch. quiet_auto. Qed.

Lemma quiet_request_single : quiet request_single.
Proof. unfold request_single. quiet_auto. Qed.

Lemma quiet_uuid4_hex_8 : quiet_returns uuid4_hex_8.
Proof. unfold uuid4_hex_8. quiet_auto. Qed.

#[local] Hint Resolve quiet_os_rename quiet_Image_open quiet_request_batch
  quiet_request_single quiet_uuid4_hex_8 : quiet.

Lemma quiet_rename_to_description src ext short_title :
  quiet (rename_to_description src ext short_title).
Proof.
  intros w.
  destruct (rename_to_description_eq src ext short_title w) as (n & _ & _ & Heq).
  unfold wp. rewrite Heq.
  apply (quiet_bind (os_rename src _) (fun _ => ret _)).
  - apply quiet_os_rename.
  - intros _. quiet_auto.
Qed.

#[local] Hint Resolve quiet_rename_to_description : quiet.

Lemma quiet_requesting temp_filename : quiet (requesting temp_filename).
Proof. unfold requesting. quiet_auto. Qed.

Lemma quiet_isolating original_filename temp_filename :
  quiet (isolating original_filename temp_filename).
Proof. unfold isolating. quiet_auto. Qed.

Lemma quiet_renaming temp_filename ext short_title :
  quiet (renaming temp_filename ext short_title).
Proof. unfold renaming. quiet_auto. Qed.

Lemma quiet_rollback original_filename temp_filename e :
  quiet_returns (rollback original_filename temp_filename e).
Proof. unfold rollback. quiet_auto. Qed.

#[local] Hint Resolve quiet_requesting quiet_isolating quiet_renaming
  quiet_rollback : quiet.

Lemma quiet_recovery_attempt original_filename temp_filename :
  quiet_returns (recovery_attempt original_filename temp_filename).
Proof. unfold recovery_attempt. quiet_auto. Qed.

Lemma quiet_rename_described original_filename short_title count failed :
  quiet_returns (rename_described original_filename short_title count failed).
Proof. unfold rename_described. quiet_auto. Qed.

Lemma quiet_batch_attempts image_batch fuel : forall retries,
  MAX_RETRIES - retries < fuel ->
  quiet_returns (batch_attempts fuel retries image_batch).
Proof.
  induction fuel as [|fuel IH]; intros retries Hfuel; [lia|].
  simpl. destruct (retries <? MAX_RETRIES) eqn:Hlt; [|quiet_auto].
  apply Nat.ltb_lt in Hlt.
  apply quiet_returns_try; [quiet_auto|].
  intros e. destruct e; cbv zeta; quiet_auto.
  apply IH. lia.
Qed.

Lemma quiet_get_batch_info_from_images image_batch :
  quiet_returns (get_batch_info_from_images image_batch).
Proof.
  unfold get_batch_info_from_images. quiet_auto.
  apply quiet_batch_attempts. unfold MAX_RETRIES. lia.
Qed.

#[local] Hint Resolve quiet_recovery_attempt quiet_rename_described
  quiet_get_batch_info_from_images : quiet.

Lemma quiet_load_images files : forall image_batch failed,
  quiet_returns (load_images files image_batch failed).
Proof.
  induction files as [|filename rest IH]; intros image_batch failed; simpl;
    quiet_auto.
Qed.

Lemma quiet_process_results result_map image_batch : forall count failed,
  quiet_returns (process_results result_map image_batch count failed).
Proof.
  induction image_batch as [|[filename img] rest IH]; intros count failed;
    simpl; quiet_auto.
Qed.

#[local] Hint Resolve quiet_load_images quiet_process_results : quiet.

Lemma quiet_apply_batch_result result_map files image_batch count failed :
  quiet_returns
    (apply_batch_result result_map files image_batch count failed).
Proof. unfold apply_batch_result. quiet_auto. Qed.

#[local] Hint Resolve quiet_apply_batch_result : quiet.

Lemma quiet_process_batch files count failed :
  quiet_returns (process_batch files count failed).
Proof. unfold process_batch. cbv zeta. quiet_auto. Qed.

#[local] Hint Resolve quiet_process_batch : quiet.

Lemma quiet_batch_loop all_files use_delay fuel : forall file_index count failed,
  length all_files - file_index < fuel ->
  quiet_returns (batch_loop fuel all_files use_delay file_index count failed).
Proof.
  induction fuel as [|fuel IH]; intros file_index count failed Hfuel; [lia|].
  simpl. destruct (file_index <? length all_files) eqn:Hlt; [|quiet_auto].
  apply Nat.ltb_lt in Hlt.
  quiet_auto; apply IH; unfold BATCH_SIZE; lia.
Qed.

Lemma quiet_os_listdir : quiet_returns os_listdir.
Proof. unfold os_listdir. quiet_auto. Qed.

(** The recovery flow returns; with a client it announces exactly its own
    file. *)
Lemma retry_failed_file_announces original_filename w :
  wp (retry_failed_file original_filename) w
    (fun _ w' =>
       gemini_client w' = gemini_client w
       /\ retried_names (trace w')
          = retried_names (trace w)
              ++ (if gemini_client w then [original_filename] else []))
    never.
Proof.
  unfold retry_failed_file. apply wp_bind. unfold wp at 1, get_client.
  destruct (gemini_client w) eqn:Hc; simpl.
  - apply wp_bind. unfold wp at 1. rewrite choose_temp_name_eq.
    eapply wp_mono; [apply quiet_recovery_attempt| |done].
    intros ok w' [Hcl Hnames]. simpl in Hcl, Hnames.
    split; [congruence|]. rewrite Hnames.
    rewrite !retried_names_app. simpl. by rewrite app_nil_r.
  - apply wp_ret. by rewrite app_nil_r.
Qed.

Lemma retry_loop_announces files : forall count w,
  wp (retry_loop files count) w
    (fun r w' =>
       count <= r <= count + length files
       /\ gemini_client w' = gemini_client w
       /\ retried_names (trace w')
          = retried_names (trace w)
              ++ (if gemini_client w then files else []))
    never.
Proof.
  induction files as [|filename rest IH]; intros count w; simpl.
  - apply wp_ret. split; [lia|]. split; [done|].
    destruct (gemini_client w); by rewrite app_nil_r.
  - apply wp_bind.
    eapply wp_mono; [apply retry_failed_file_announces| |done].
    intros ok w1 [Hcl Hnames].
    eapply wp_mono; [apply IH| |done].
    intros r w2 (Hr & Hcl2 & Hnames2). cbv beta in *.
    split; [destruct ok; lia|]. split; [congruence|].
    rewrite Hnames2, Hnames, Hcl.
    destruct (gemini_client w); by rewrite <- app_assoc.
Qed.

(** ** The batch loop *)

Lemma wp_emit ev w (Q : unit -> World -> Prop) Qe :
  Q tt (mkWorld (fs w) (clock w) (trace w ++ [ev]) (gemini_client w)) ->
  wp (emit ev) w Q Qe.
Proof. done. Qed.

Lemma wp_log m tag w (Q : unit -> World -> Prop) Qe :
  Q tt (mkWorld (fs w) (clock w) (trace w ++ [Log m tag]) (gemini_client w)) ->
  wp (log_message m tag) w Q Qe.
Proof. done. Qed.

(** One described file: either it is renamed to a candidate built from its
    sanitized title and counted, or its rename raised and it joins the
    failure list. *)
Lemma rename_described_spec original_filename short_title count failed w :
  wp (rename_described original_filename short_title count failed) w
    (fun r w' =>
       exists T,
         trace w' = trace w ++ T
         /\ ((r = (count + 1, failed)
              /\ exists n,
                   Rename original_filename
                     (candidate (sanitize short_title ++ PROCESSED_SUFFIX)
                        (splitext_ext original_filename) n) true ∈ T)
             \/ (r = (count, failed ++ [original_filename])
                 /\ Log (MsgRenameError original_filename) error ∈ T)))
    never.
Proof.
  destruct (rename_to_description_eq original_filename
              (splitext_ext original_filename) short_title w)
    as (n & _ & _ & Heq).
  set (name := candidate (sanitize short_title ++ PROCESSED_SUFFIX)
                 (splitext_ext original_filename) n) in *.
  assert ((exists w1, rename_to_description original_filename
             (splitext_ext original_filename) short_title w
             = Returns (name, S n) w1
             /\ trace w1 = trace w ++ [Rename original_filename name true])
          \/ (exists e w1, rename_to_description original_filename
                (splitext_ext original_filename) short_title w
                = Raises e w1
                /\ trace w1 = trace w ++ [Rename original_filename name false]))
    as [(w1 & Hrun & Ht)|(e & w1 & Hrun & Ht)].
  { rewrite Heq. unfold bind.
    destruct (fs w !! original_filename) as [c|] eqn:Hsrc.
    - destruct (os_refuses E (clock w) original_filename name) eqn:Hr.
      + right. rewrite (os_rename_refused _ _ c) by done. by eexists _, _.
      + left. rewrite (os_rename_done _ _ c) by done. by eexists.
    - right. rewrite os_rename_missing by done. by eexists _, _. }
  - eapply wp_of_returns; [by apply rename_described_done|].
    simpl. eexists. rewrite Ht, <- app_assoc. split; [done|].
    left. split; [done|]. exists n. apply elem_of_cons. by left.
  - eapply wp_of_returns; [by eapply rename_described_failed|].
    simpl. eexists. rewrite Ht, <- app_assoc. split; [done|].
    right. split; [done|]. apply elem_of_cons. right.
    apply elem_of_cons. by left.
Qed.

Lemma process_results_spec result_map image_batch : forall count failed w,
  wp (process_results result_map image_batch count failed) w
    (fun r w' =>
       exists G T,
         r.2 = failed ++ G
         /\ trace w' = trace w ++ T
         /\ r.1 + length G = count + length image_batch
         /\ G `sublist_of` List.map fst image_batch
         /\ (forall g, g ∈ List.map fst image_batch ->
                       result_map !! g = None -> g ∈ G)
         /\ (forall g, g ∈ G ->
                       result_map !! g = None
                       \/ Log (MsgRenameError g) error ∈ T)
         /\ (forall g t, g ∈ List.map fst image_batch ->
                         result_map !! g = Some t ->
                         g ∈ G
                         \/ exists n,
                              Rename g
                                (candidate (sanitize t ++ PROCESSED_SUFFIX)
                                   (splitext_ext g) n) true ∈ T))
    never.
Proof.
  induction image_batch as [|[f img] rest IH]; intros count failed w; simpl.
  { apply wp_ret. exists [], []. simpl. rewrite !app_nil_r.
    repeat split; try done; intros;
      match goal with H : _ ∈ [] |- _ => by apply elem_of_nil in H end. }
  destruct (result_map !! f) as [t|] eqn:Hf.
  - apply wp_bind.
    eapply wp_mono; [apply rename_described_spec| |done].
    intros r w1 (T1 & Ht1 & Hcase).
    eapply wp_mono; [apply IH| |done].
    intros r' w' (G & T & Hr2 & Ht & Hlen & Hsub & Hmiss & Hin & Hren).
    cbv beta in *.
    destruct Hcase as [[-> (n & Hn)]|[-> Herr]]; simpl in *.
    + exists G, (T1 ++ T). rewrite Ht, Ht1, <- app_assoc.
      split; [done|]. split; [done|]. split; [lia|].
      split; [by apply sublist_cons|].
      split.
      { intros g Hg Hnone. apply elem_of_cons in Hg as [->|Hg];
          [congruence|by apply Hmiss]. }
      split.
      { intros g Hg. destruct (Hin g Hg) as [?|?]; [by left|].
        right. apply elem_of_app. by right. }
      intros g t' Hg Hsome. apply elem_of_cons in Hg as [->|Hg].
      * right. assert (t' = t) as -> by congruence.
        exists n. apply elem_of_app. by left.
      * destruct (Hren g t' Hg Hsome) as [?|(n' & Hn')]; [by left|].
        right. exists n'. apply elem_of_app. by right.
    + exists (f :: G), (T1 ++ T). rewrite Ht, Ht1, <- !app_assoc.
      split; [by rewrite Hr2, <- app_assoc|]. split; [done|].
      simpl. split; [lia|].
      split; [by apply sublist_skip|].
      split.
      { intros g Hg Hnone. apply elem_of_cons in Hg as [->|Hg];
          [by left|]. apply elem_of_cons. right. by apply Hmiss. }
      split.
      { intros g Hg. apply elem_of_cons in Hg as [->|Hg].
        - right. apply elem_of_app. by left.
        - destruct (Hin g Hg) as [?|?]; [by left|].
          right. apply elem_of_app. by right. }
      intros g t' Hg Hsome. apply elem_of_cons in Hg as [->|Hg].
      * left. by left.
      * destruct (Hren g t' Hg Hsome) as [?|(n' & Hn')].
        -- left. by right.
        -- right. exists n'. apply elem_of_app. by right.
  - apply wp_bind. apply wp_log.
    eapply wp_mono; [apply IH| |done].
    intros r' w' (G & T & Hr2 & Ht & Hlen & Hsub & Hmiss & Hin & Hren).
    cbv beta in *. simpl in Ht.
    exists (f :: G), (Log (MsgMissingResult f) error :: T).
    split; [by rewrite Hr2, <- app_assoc|].
    split; [by rewrite Ht, <- app_assoc|].
    simpl. split; [lia|].
    split; [by apply sublist_skip|].
    split.
    { intros g Hg Hnone. apply elem_of_cons in Hg as [->|Hg];
        [by left|]. apply elem_of_cons. right. by apply Hmiss. }
    split.
    { intros g Hg. apply elem_of_cons in Hg as [->|Hg]; [by left|].
      destruct (Hin g Hg) as [?|?]; [by left|].
      right. apply elem_of_cons. by right. }
    intros g t' Hg Hsome. apply elem_of_cons in Hg as [->|Hg];
      [congruence|].
    destruct (Hren g t' Hg Hsome) as [?|(n' & Hn')].
    + left. by right.
    + right. exists n'. apply elem_of_cons. by right.
Qed.

Lemma wp_conj {A} (m : M A) w (Q1 Q2 : A -> World -> Prop)
    (Qe1 Qe2 : exn -> World -> Prop) :
  wp m w Q1 Qe1 -> wp m w Q2 Qe2 ->
  wp m w (fun a w' => Q1 a w' /\ Q2 a w') (fun e w' => Qe1 e w' /\ Qe2 e w').
Proof. unfold wp. by destruct (m w). Qed.

Lemma load_images_spec files : forall image_batch failed w,
  wp (load_images files image_batch failed) w
    (fun r _ =>
       exists opened L,
         r.1 = image_batch ++ opened
         /\ r.2 = failed ++ L
         /\ List.map fst opened ++ L ≡ₚ files)
    never.
Proof.
  induction files as [|f rest IH]; intros image_batch failed w; simpl.
  { apply wp_ret. exists [], []. by rewrite !app_nil_r. }
  apply wp_bind, wp_try, wp_bind.
  eapply wp_mono; [apply quiet_Image_open|..]; cbv beta.
  - intros img w1 _. apply wp_ret. simpl.
    eapply wp_mono; [apply IH| |done].
    intros r w2 (opened & L & H1 & H2 & Hp). cbv beta.
    exists ((f, img) :: opened), L.
    split; [by rewrite H1, <- app_assoc|]. split; [done|].
    simpl. by rewrite Hp.
  - intros e w1 _. apply wp_bind, wp_log, wp_ret. simpl.
    eapply wp_mono; [apply IH| |done].
    intros r w2 (opened & L & H1 & H2 & Hp). cbv beta.
    exists opened, (f :: L).
    split; [done|]. split; [by rewrite H2, <- app_assoc|].
    by rewrite <- Permutation_middle, Hp.
Qed.

Lemma apply_batch_result_spec result_map files image_batch count failed w :
  wp (apply_batch_result result_map files image_batch count failed) w
    (fun r _ =>
       exists G,
         r.2 = failed ++ G
         /\ ((G `sublist_of` List.map fst image_batch
              /\ r.1 + length G = count + length image_batch)
             \/ (G = files /\ r.1 = count)))
    never.
Proof.
  unfold apply_batch_result. destruct (truthy result_map).
  - eapply wp_mono; [apply process_results_spec| |done].
    intros r w' (G & T & H2 & _ & Hlen & Hsub & _). cbv beta.
    exists G. split; [done|]. by left.
  - apply wp_bind, wp_log, wp_ret. exists files. split; [done|]. by right.
Qed.

(** One batch: every file of the batch is counted as renamed or is in the
    part added to the failure list, never both. *)
Lemma process_batch_spec files count failed w :
  NoDup files ->
  wp (process_batch files count failed) w
    (fun r _ =>
       exists G,
         r.2 = failed ++ G
         /\ (forall x, x ∈ G -> x ∈ files)
         /\ r.1 + size (list_to_set (C:=gset pystr) G) = count + length files)
    never.
Proof.
  intros Hnd. unfold process_batch. apply wp_bind.
  eapply wp_mono; [apply load_images_spec| |done].
  intros [image_batch failed1] w1 (opened & L & H1 & H2 & Hp).
  cbv beta zeta. simpl in *. subst image_batch failed1.
  assert (NoDup (List.map fst opened ++ L)) as Hnd' by by rewrite Hp.
  assert (length files = length opened + length L) as Hlen.
  { by rewrite <- Hp, length_app, length_map. }
  apply NoDup_app in Hnd' as (Hnd1 & Hdisj & Hnd2).
  destruct opened as [|o opened'].
  - apply wp_ret. exists L. split; [done|].
    split.
    { intros x Hx. rewrite <- Hp. done. }
    simpl. rewrite size_list_to_set by done. simpl in Hlen. lia.
  - apply wp_bind.
    eapply wp_mono; [apply quiet_get_batch_info_from_images| |done].
    intros result_map w2 _.
    eapply wp_mono; [apply apply_batch_result_spec| |done].
    intros r w3 (G & H2 & Hcase). cbv beta.
    exists (L ++ G). split; [by rewrite H2, <- app_assoc|].
    destruct Hcase as [[Hsub HlenG]|[-> ->]].
    + assert (NoDup (L ++ G)) as HndLG.
      { apply NoDup_app. split; [done|]. split.
        - intros x HxL HxG. apply (Hdisj x); [|done].
          by eapply elem_of_sublist.
        - by apply (sublist_NoDup G (List.map fst (o :: opened'))). }
      split.
      { intros x Hx. rewrite <- Hp. apply elem_of_app.
        apply elem_of_app in Hx as [?|?]; [by right|left].
        by eapply elem_of_sublist. }
      rewrite size_list_to_set by done. rewrite length_app. lia.
    + split.
      { intros x Hx. apply elem_of_app in Hx as [?|?]; [|done].
        rewrite <- Hp. apply elem_of_app. by right. }
      assert (list_to_set (C:=gset pystr) (L ++ files) = list_to_set files)
        as ->.
      { apply set_eq. intros x. rewrite !elem_of_list_to_set, elem_of_app.
        split; [|by right]. intros [HL|?]; [|done].
        rewrite <- Hp. apply elem_of_app. by right. }
      by rewrite size_list_to_set.
Qed.

Lemma batch_loop_spec all_files use_delay :
  NoDup all_files ->
  forall fuel file_index count failed w,
    length all_files - file_index < fuel ->
    count + size (list_to_set (C:=gset pystr) failed)
      = length (take file_index all_files) ->
    (forall x, x ∈ failed -> x ∈ take file_index all_files) ->
    wp (batch_loop fuel all_files use_delay file_index count failed) w
      (fun r _ =>
         r.1 + size (list_to_set (C:=gset pystr) r.2) = length all_files
         /\ forall x, x ∈ r.2 -> x ∈ all_files)
      never.
Proof.
  intros Hnd. induction fuel as [|fuel IH];
    intros file_index count failed w Hfuel Hinv Hsub; [lia|].
  simpl. destruct (file_index <? length all_files) eqn:Hlt.
  - apply Nat.ltb_lt in Hlt. apply wp_bind.
    set (batch := take BATCH_SIZE (drop file_index all_files)).
    assert (NoDup batch) as Hndb.
    { apply (sublist_NoDup batch all_files);
        first [exact Hnd|etrans; [apply sublist_take|apply sublist_drop]]. }
    eapply wp_mono; [by apply process_batch_spec| |done].
    intros [count1 failed1] w1 (G & H2 & HG & Hsize). cbv beta zeta.
    simpl in *. subst failed1. apply wp_bind.
    assert (take (file_index + BATCH_SIZE) all_files
            = take file_index all_files ++ batch) as Htake.
    { symmetry. apply take_take_drop. }
    assert (count1 + size (list_to_set (C:=gset pystr) (failed ++ G))
            = length (take (file_index + BATCH_SIZE) all_files)) as Hinv'.
    { rewrite Htake, length_app, list_to_set_app_L, size_union; [lia|].
      intros x Hx1 Hx2. apply elem_of_list_to_set in Hx1, Hx2.
      rewrite <- (take_drop file_index all_files) in Hnd.
      apply NoDup_app in Hnd as (_ & Hdisj & _).
      apply (Hdisj x); [by apply Hsub|].
      eapply elem_of_sublist; [by apply HG|]. apply sublist_take. }
    assert (forall x, x ∈ failed ++ G ->
                      x ∈ take (file_index + BATCH_SIZE) all_files) as Hsub'.
    { intros x Hx. rewrite Htake. apply elem_of_app.
      apply elem_of_app in Hx as [?|?]; [left; by apply Hsub|right].
      by apply HG. }
    destruct (use_delay && (file_index + BATCH_SIZE <? length all_files)).
    + apply wp_bind, wp_log, wp_emit.
      apply IH; [unfold BATCH_SIZE; lia|done|done].
    + apply wp_ret. apply IH; [unfold BATCH_SIZE; lia|done|done].
  - apply Nat.ltb_ge in Hlt. apply wp_ret. simpl.
    rewrite take_ge in Hinv, Hsub by done. by split.
Qed.

(** ** The failure set and the final tally *)

Lemma str_leb_total a : forall b, str_leb a b = true \/ str_leb b a = true.
Proof.
  induction a as [|x a IH]; intros [|y b]; simpl; auto.
  destruct (x <? y)%N eqn:Hxy; [by left|].
  destruct (y <? x)%N eqn:Hyx; [by right|].
  apply IH.
Qed.

Lemma str_leb_trans a : forall b c,
  str_leb a b = true -> str_leb b c = true -> str_leb a c = true.
Proof.
  induction a as [|x a IH]; intros [|y b] [|z c]; simpl; try done.
  destruct (x <? y)%N eqn:Hxy; destruct (y <? z)%N eqn:Hyz;
    destruct (y <? x)%N eqn:Hyx; destruct (z <? y)%N eqn:Hzy;
    destruct (x <? z)%N eqn:Hxz; destruct (z <? x)%N eqn:Hzx;
    try done; try (apply IH);
    rewrite ?N.ltb_lt, ?N.ltb_ge in *; lia.
Qed.

#[global] Instance str_le_total : Total str_le.
Proof. intros a b. apply str_leb_total. Qed.

#[global] Instance str_le_trans : Transitive str_le.
Proof. intros a b c. apply str_leb_trans. Qed.

Lemma sorted_set_Permutation l : sorted_set l ≡ₚ remove_dups l.
Proof. apply merge_sort_Permutation. Qed.

Lemma sorted_set_NoDup l : NoDup (sorted_set l).
Proof. rewrite sorted_set_Permutation. apply NoDup_remove_dups. Qed.

Lemma sorted_set_elem_of l x : x ∈ sorted_set l <-> x ∈ l.
Proof. rewrite sorted_set_Permutation. apply elem_of_remove_dups. Qed.

Lemma sorted_set_sorted l : StronglySorted str_le (sorted_set l).
Proof. apply Sorted_StronglySorted; [apply _|]. apply Sorted_merge_sort, _. Qed.

Lemma sorted_set_length l :
  length (sorted_set l) = size (list_to_set (C:=gset pystr) l).
Proof.
  rewrite sorted_set_Permutation.
  rewrite <- (size_list_to_set (C:=gset pystr)) by apply NoDup_remove_dups.
  f_equal. apply set_eq. intros x.
  by rewrite !elem_of_list_to_set, elem_of_remove_dups.
Qed.

Lemma os_listdir_spec w :
  wp os_listdir w (fun listing w' => NoDup listing /\ same_retries w w') never.
Proof.
  unfold wp, os_listdir, bind, tick, get_fs, emit, ret. simpl.
  split; [|split; [done|simpl; by rewrite retried_names_app, app_nil_r]].
  rewrite merge_sort_Permutation. apply NoDup_elements.
Qed.

Lemma filter_NoDup (f : pystr -> bool) l : NoDup l -> NoDup (List.filter f l).
Proof.
  induction 1 as [|x l Hx Hl IH]; simpl; [constructor|].
  destruct (f x); [|done]. constructor; [|done].
  intros Hin. apply Hx. apply list_elem_of_In in Hin.
  apply List.filter_In in Hin as [Hin _]. by apply list_elem_of_In.
Qed.

(** The whole run. *)
Lemma rename_images_in_directory_spec use_delay w :
  wp (rename_images_in_directory use_delay) w
    (fun tally w' =>
       unique_failed_files tally = sorted_set (failed_files_for_retry tally)
       /\ total_renamed tally
          = batch_processed_count tally + retry_processed_count tally
       /\ total_failed tally
          = (Z.of_nat (total_eligible_files tally)
             - Z.of_nat (total_renamed tally))%Z
       /\ batch_processed_count tally + length (unique_failed_files tally)
          = total_eligible_files tally
       /\ retry_processed_count tally <= length (unique_failed_files tally)
       /\ gemini_client w' = gemini_client w
       /\ retried_names (trace w')
          = retried_names (trace w)
              ++ (if gemini_client w then unique_failed_files tally else [])
       /\ exists T,
            trace w' =
              T ++ [Log (MsgSummaryUntouched (total_failed tally)) error;
                    ShowInfo (total_renamed tally)])
    never.
Proof.
  unfold rename_images_in_directory.
  apply wp_bind, wp_log, wp_bind.
  eapply wp_mono; [apply os_listdir_spec| |done].
  intros listing w1 [Hnd [Hc1 Hn1]]. cbv beta zeta. simpl in Hc1, Hn1.
  rewrite retried_names_app, app_nil_r in Hn1.
  set (all_files := List.filter is_eligible listing).
  assert (NoDup all_files) as Hnd' by by apply filter_NoDup.
  apply wp_bind, wp_log, wp_bind.
  eapply wp_mono;
    [apply wp_conj;
       [apply (batch_loop_spec all_files use_delay Hnd' (S (length all_files))
                 0 0 [])
       |apply quiet_batch_loop]
    | |by intros ? ? [? _]]; [lia|done| |lia|].
  { intros x Hx. by apply elem_of_nil in Hx. }
  intros [batch_count failed] w2 [[Hsize Hin] [Hc2 Hn2]]. cbv beta zeta.
  simpl in Hsize, Hin, Hc2, Hn2. unfold fst, snd.
  rewrite retried_names_app, app_nil_r in Hn2.
  rewrite <- sorted_set_length in Hsize.
  apply wp_bind.
  eapply (wp_mono _ _
            (fun r w3 =>
               r <= length (sorted_set failed)
               /\ gemini_client w3 = gemini_client w
               /\ retried_names (trace w3)
                  = retried_names (trace w)
                      ++ (if gemini_client w then sorted_set failed else []))).
  - destruct (sorted_set failed) as [|f0 rest] eqn:Hu.
    + apply wp_ret. split; [simpl; lia|]. split; [congruence|].
      rewrite Hn2, Hn1. by destruct (gemini_client w); rewrite app_nil_r.
    + apply wp_bind, wp_log.
      eapply wp_mono; [apply retry_loop_announces| |done].
      intros r w3 (Hr & Hc3 & Hn3). cbv beta. simpl in Hc3, Hn3.
      rewrite retried_names_app, app_nil_r in Hn3.
      split; [lia|]. split; [congruence|].
      rewrite Hn3, Hn2, Hn1, Hc2, Hc1. done.
  - intros retry_count w3 (Hr & Hc3 & Hn3).
    do 4 apply wp_bind, wp_log. apply wp_bind, wp_emit, wp_ret. simpl.
    rewrite !retried_names_app. simpl. rewrite !app_nil_r.
    repeat split; try done.
    eexists. rewrite <- (app_assoc _ [_] [_]). reflexivity.
  - done.
Qed.

(** C8, as the code has it. The list the recovery loop runs over holds the
    file names accumulated in the failure list, each once, in ascending
    order of their code points (not in the order they were accumulated);
    with a client in place the recovery flow is entered once for each of
    them, in that order. *)
Theorem failure_set_sorted_and_retried_once use_delay w :
  gemini_client w = true ->
  exists tally w',
    rename_images_in_directory use_delay w = Returns tally w'
    /\ unique_failed_files tally = sorted_set (failed_files_for_retry tally)
    /\ NoDup (unique_failed_files tally)
    /\ StronglySorted str_le (unique_failed_files tally)
    /\ (forall f, f ∈ unique_failed_files tally
                  <-> f ∈ failed_files_for_retry tally)
    /\ retried_names (trace w')
       = retried_names (trace w) ++ unique_failed_files tally.
Proof.
  intros Hclient.
  destruct (wp_returns _ _ _ (rename_images_in_directory_spec use_delay w))
    as (tally & w' & Hrun & Huniq & _ & _ & _ & _ & _ & Hnames & _).
  rewrite Hclient in Hnames.
  exists tally, w'. split; [done|]. split; [done|]. rewrite Huniq.
  split; [apply sorted_set_NoDup|]. split; [apply sorted_set_sorted|].
  split; [apply sorted_set_elem_of|]. by rewrite <- Huniq.
Qed.

(** C5, as the code has it. When the mapping of a batch omits one of its
    file names, that name is added to the failure list; every other file
    of the batch is renamed to a name built from its own sanitized title,
    and is added to the failure list only if its own rename raises; when no
    rename raises, the omitted name is the only one added. *)
Theorem omitted_file_joins_failure_set
    result_map files image_batch omitted count failed w :
  result_map <> ∅ ->
  NoDup (List.map fst image_batch) ->
  omitted ∈ List.map fst image_batch ->
  result_map !! omitted = None ->
  (forall g, g ∈ List.map fst image_batch -> g <> omitted ->
             is_Some (result_map !! g)) ->
  exists count' G T w',
    apply_batch_result (Some result_map) files image_batch count failed w
      = Returns (count', failed ++ G) w'
    /\ trace w' = trace w ++ T
    /\ omitted ∈ G
    /\ NoDup G
    /\ (forall g, g ∈ G -> g <> omitted ->
                  Log (MsgRenameError g) error ∈ T)
    /\ (forall g t, g ∈ List.map fst image_batch ->
                    result_map !! g = Some t ->
                    g ∈ G
                    \/ exists n,
                         Rename g
                           (candidate (sanitize t ++ PROCESSED_SUFFIX)
                              (splitext_ext g) n) true ∈ T)
    /\ count' + length G = count + length image_batch
    /\ ((forall g, Log (MsgRenameError g) error ∉ T) -> G = [omitted]).
Proof.
  intros Hne Hnd Hin Hnone Hothers.
  unfold apply_batch_result, truthy. rewrite bool_decide_false by done.
  simpl.
  destruct (wp_returns _ _ _
              (process_results_spec result_map image_batch count failed w))
    as ([count' failed'] & w' & Hrun &
        G & T & H2 & Ht & Hlen & Hsub & Hmiss & HG & Hren).
  simpl in *. subst failed'.
  assert (NoDup G) as HndG
    by by apply (sublist_NoDup G (List.map fst image_batch)).
  assert (forall g, g ∈ G -> g <> omitted ->
                    Log (MsgRenameError g) error ∈ T) as Herr.
  { intros g Hg Hgo. destruct (HG g Hg) as [Hn|?]; [|done].
    destruct (Hothers g) as [t Ht']; [by eapply elem_of_sublist|done|].
    congruence. }
  exists count', G, T, w'. repeat split; try done.
  - by apply Hmiss.
  - intros Hquiet.
    assert (forall g, g ∈ G -> g = omitted) as Hall.
    { intros g Hg. destruct (decide (g = omitted)) as [|Hgo]; [done|].
      by destruct (Hquiet g (Herr g Hg Hgo)). }
    destruct G as [|g0 G'].
    { specialize (Hmiss _ Hin Hnone). by apply elem_of_nil in Hmiss. }
    rewrite (Hall g0) by (by left). f_equal.
    destruct G' as [|g1 G'']; [done|].
    apply NoDup_cons in HndG as [Hg0 _].
    destruct Hg0. rewrite (Hall g0), <- (Hall g1); [by left| |by left].
    right. by left.
Qed.

(** ** Frames: what a part of the program leaves alone *)

Section Frame.

Variable R : World -> World -> Prop.
Variable allowed : Event -> Prop.

Hypothesis R_refl : forall w, R w w.
Hypothesis R_trans : forall w1 w2 w3, R w1 w2 -> R w2 w3 -> R w1 w3.
Hypothesis R_emit : forall w ev,
  allowed ev ->
  R w (mkWorld (fs w) (clock w) (trace w ++ [ev]) (gemini_client w)).
Hypothesis R_tick : forall w,
  R w (mkWorld (fs w) (S (clock w)) (trace w) (gemini_client w)).
Hypothesis R_set_fs : forall w d,
  R w (mkWorld d (clock w) (trace w) (gemini_client w)).

Hypothesis A_log : forall m tag, announces m = None -> allowed (Log m tag).
Hypothesis A_report : forall m tag new_filename,
  announces m = Some new_filename -> allowed (Log m tag).
Hypothesis A_retry_sleep : allowed (Sleep RETRY_DELAY).
Hypothesis A_pause : allowed (Sleep 5).
Hypothesis A_rename : forall src dst done, allowed (Rename src dst done).
Hypothesis A_open : forall path opened, allowed (Open path opened).
Hypothesis A_uuid : allowed Uuid4.
Hypothesis A_batch : forall filenames, allowed (BatchRequest filenames).
Hypothesis A_single : allowed SingleRequest.
Hypothesis A_listdir : allowed Listdir.

(** The renamer, taken as given by the parts built on it. *)
Hypothesis F_rename_to_description : forall src ext short_title,
  framed R (rename_to_description src ext short_title).

Lemma framed_returns_framed {A} (m : M A) : framed_returns R m -> framed R m.
Proof. intros H w. eapply wp_mono; [apply H|done|done]. Qed.

Lemma framed_ret {A} (a : A) : framed_returns R (ret a).
Proof. intros w. apply wp_ret, R_refl. Qed.

Lemma framed_raise {A} e : framed R (raise (A:=A) e).
Proof. intros w. apply wp_raise, R_refl. Qed.

Lemma framed_bind {A B} (m : M A) (k : A -> M B) :
  framed R m -> (forall a, framed R (k a)) -> framed R (bind m k).
Proof.
  intros Hm Hk w. apply wp_bind.
  eapply wp_mono; [apply Hm| |done].
  intros a w' Hs. eapply wp_mono; [apply Hk|..];
    intros ? w'' Hs'; cbv beta in *; exact (R_trans _ _ _ Hs Hs').
Qed.

Lemma framed_returns_bind {A B} (m : M A) (k : A -> M B) :
  framed_returns R m -> (forall a, framed_returns R (k a)) ->
  framed_returns R (bind m k).
Proof.
  intros Hm Hk w. apply wp_bind.
  eapply wp_mono; [apply Hm| |done].
  intros a w' Hs. eapply wp_mono; [apply Hk| |done].
  intros ? w'' Hs'; cbv beta in *; exact (R_trans _ _ _ Hs Hs').
Qed.

Lemma framed_try {A} (body : M A) handler :
  framed R body -> (forall e, framed R (handler e)) ->
  framed R (try_except body handler).
Proof.
  intros Hb Hh w. apply wp_try.
  eapply wp_mono; [apply Hb|done|].
  intros e w' Hs. eapply wp_mono; [apply Hh|..];
    intros ? w'' Hs'; cbv beta in *; exact (R_trans _ _ _ Hs Hs').
Qed.

Lemma framed_returns_try {A} (body : M A) handler :
  framed R body -> (forall e, framed_returns R (handler e)) ->
  framed_returns R (try_except body handler).
Proof.
  intros Hb Hh w. apply wp_try.
  eapply wp_mono; [apply Hb|done|].
  intros e w' Hs. eapply wp_mono; [apply Hh| |done].
  intros ? w'' Hs'; cbv beta in *; exact (R_trans _ _ _ Hs Hs').
Qed.

Lemma framed_emit ev : allowed ev -> framed_returns R (emit ev).
Proof. intros Hev w. by apply R_emit. Qed.

Lemma framed_tick : framed_returns R tick.
Proof. intros w. apply R_tick. Qed.

Lemma framed_get_fs : framed_returns R get_fs.
Proof. intros w. apply R_refl. Qed.

Lemma framed_get_client : framed_returns R get_client.
Proof. intros w. apply R_refl. Qed.

Lemma framed_set_fs d : framed_returns R (set_fs d).
Proof. intros w. apply R_set_fs. Qed.

Create HintDb framed.

Ltac framed_step :=
  lazymatch goal with
  | |- framed_returns _ (ret _) => apply framed_ret
  | |- framed _ (raise _) => apply framed_raise
  | |- framed_returns _ tick => apply framed_tick
  | |- framed_returns _ get_fs => apply framed_get_fs
  | |- framed_returns _ get_client => apply framed_get_client
  | |- framed_returns _ (set_fs _) => apply framed_set_fs
  | |- framed_returns _ (emit _) => apply framed_emit; solve [auto]
  | |- framed_returns _ (time_sleep _) => apply framed_emit; solve [auto]
  | |- framed_returns _ (log_message _ _) =>
      apply framed_emit;
      first [apply A_log; reflexivity | eapply A_report; reflexivity]
  | |- framed_returns _ (bind _ _) => apply framed_returns_bind; [|intros ?]
  | |- framed _ (bind _ _) => apply framed_bind; [|intros ?]
  | |- framed_returns _ (try_except _ _) =>
      apply framed_returns_try; [|intros ?]
  | |- framed _ (try_except _ _) => apply framed_try; [|intros ?]
  | |- framed_returns _ (match ?x with _ => _ end) => destruct x
  | |- framed _ (match ?x with _ => _ end) => destruct x
  | |- framed_returns _ _ => solve [auto with framed]
  | |- framed _ _ =>
      first [solve [auto with framed] | apply framed_returns_framed]
  end.

Ltac framed_auto := repeat framed_step.

Lemma framed_os_rename src dst : framed R (os_rename src dst).
Proof. unfold os_rename. framed_auto. Qed.

Lemma framed_Image_open path : framed R (Image_open path).
Proof. unfold Image_open. framed_auto. Qed.

Lemma framed_request_batch filenames : framed R (request_batch filenames).
Proof. unfold request_batch. framed_auto. Qed.

Lemma framed_request_single : framed R request_single.
Proof. unfold request_single. framed_auto. Qed.

Lemma framed_uuid4_hex_8 : framed_returns R uuid4_hex_8.
Proof. unfold uuid4_hex_8. framed_auto. Qed.

#[local] Hint Resolve framed_os_rename framed_Image_open framed_request_batch
  framed_request_single framed_uuid4_hex_8 : framed.

(** The renamer from its parts, for relations every rename respects. *)
Lemma framed_rename_to_description_by_parts src ext short_title :
  framed R (rename_to_description src ext short_title).
Proof.
  intros w.
  destruct (rename_to_description_eq src ext short_title w) as (n & _ & _ & Heq).
  unfold wp. rewrite Heq.
  apply (framed_bind (os_rename src _) (fun _ => ret _)).
  - apply framed_os_rename.
  - intros _. framed_auto.
Qed.

Lemma framed_requesting temp_filename : framed R (requesting temp_filename).
Proof. unfold requesting. framed_auto. Qed.

Lemma framed_isolating original_filename temp_filename :
  framed R (isolating original_filename temp_filename).
Proof. unfold isolating. framed_auto. Qed.

Lemma framed_rollback original_filename temp_filename e :
  framed_returns R (rollback original_filename temp_filename e).
Proof. unfold rollback. framed_auto. Qed.

#[local] Hint Resolve F_rename_to_description : framed.

Lemma framed_renaming temp_filename ext short_title :
  framed R (renaming temp_filename ext short_title).
Proof. unfold renaming. framed_auto. Qed.

Lemma framed_rename_described original_filename short_title count failed :
  framed_returns R
    (rename_described original_filename short_title count failed).
Proof. unfold rename_described. framed_auto. Qed.

Lemma framed_batch_attempts image_batch fuel : forall retries,
  MAX_RETRIES - retries < fuel ->
  framed_returns R (batch_attempts fuel retries image_batch).
Proof.
  induction fuel as [|fuel IH]; intros retries Hfuel; [lia|].
  simpl. destruct (retries <? MAX_RETRIES) eqn:Hlt; [|framed_auto].
  apply Nat.ltb_lt in Hlt.
  apply framed_returns_try; [framed_auto|].
  intros e. destruct e; cbv zeta; framed_auto.
  apply IH. lia.
Qed.

Lemma framed_get_batch_info_from_images image_batch :
  framed_returns R (get_batch_info_from_images image_batch).
Proof.
  unfold get_batch_info_from_images. framed_auto.
  apply framed_batch_attempts. unfold MAX_RETRIES. lia.
Qed.

#[local] Hint Resolve framed_requesting framed_isolating framed_rollback
  framed_renaming framed_rename_described
  framed_get_batch_info_from_images : framed.

Lemma framed_recovery_attempt original_filename temp_filename :
  framed_returns R (recovery_attempt original_filename temp_filename).
Proof. unfold recovery_attempt. framed_auto. Qed.

Lemma framed_load_images files : forall image_batch failed,
  framed_returns R (load_images files image_batch failed).
Proof.
  induction files as [|filename rest IH]; intros image_batch failed; simpl;
    framed_auto.
Qed.

Lemma framed_process_results result_map image_batch : forall count failed,
  framed_returns R (process_results result_map image_batch count failed).
Proof.
  induction image_batch as [|[filename img] rest IH]; intros count failed;
    simpl; framed_auto.
Qed.

#[local] Hint Resolve framed_load_images framed_process_results : framed.

Lemma framed_apply_batch_result result_map files image_batch count failed :
  framed_returns R
    (apply_batch_result result_map files image_batch count failed).
Proof. unfold apply_batch_result. framed_auto. Qed.

#[local] Hint Resolve framed_apply_batch_result : framed.

Lemma framed_process_batch files count failed :
  framed_returns R (process_batch files count failed).
Proof. unfold process_batch. cbv zeta. framed_auto. Qed.

#[local] Hint Resolve framed_process_batch : framed.

Lemma framed_batch_loop all_files use_delay fuel :
  forall file_index count failed,
    length all_files - file_index < fuel ->
    framed_returns R
      (batch_loop fuel all_files use_delay file_index count failed).
Proof.
  induction fuel as [|fuel IH]; intros file_index count failed Hfuel; [lia|].
  simpl. destruct (file_index <? length all_files) eqn:Hlt; [|framed_auto].
  apply Nat.ltb_lt in Hlt.
  framed_auto; apply IH; unfold BATCH_SIZE; lia.
Qed.

Lemma framed_os_listdir : framed_returns R os_listdir.
Proof. unfold os_listdir. framed_auto. Qed.

Lemma framed_choose_temp_name original_filename :
  framed_returns R (choose_temp_name original_filename).
Proof. unfold choose_temp_name. framed_auto. Qed.

#[local] Hint Resolve framed_recovery_attempt framed_choose_temp_name : framed.

Lemma framed_retry_failed_file original_filename :
  framed_returns R (retry_failed_file original_filename).
Proof. unfold retry_failed_file. framed_auto. Qed.

#[local] Hint Resolve framed_retry_failed_file : framed.

Lemma framed_retry_loop files : forall count,
  framed_returns R (retry_loop files count).
Proof.
  induction files as [|filename rest IH]; intros count; simpl; framed_auto.
Qed.

End Frame.

(** *** The relations used *)

Lemma same_fs_refl w : same_fs w w.
Proof. done. Qed.

Lemma same_fs_trans w1 w2 w3 : same_fs w1 w2 -> same_fs w2 w3 -> same_fs w1 w3.
Proof. intros [? ?] [? ?]. split; congruence. Qed.

Lemma same_events_refl keep w : same_events keep w w.
Proof. done. Qed.

Lemma same_events_trans keep w1 w2 w3 :
  same_events keep w1 w2 -> same_events keep w2 w3 -> same_events keep w1 w3.
Proof. unfold same_events. congruence. Qed.

Lemma same_events_emit keep w ev :
  keep ev = false ->
  same_events keep w
    (mkWorld (fs w) (clock w) (trace w ++ [ev]) (gemini_client w)).
Proof.
  intros H. unfold same_events. simpl.
  rewrite List.filter_app. simpl. by rewrite H, app_nil_r.
Qed.

Lemma same_contents_refl w : same_contents w w.
Proof. unfold same_contents. reflexivity. Qed.

Lemma same_contents_trans w1 w2 w3 :
  same_contents w1 w2 -> same_contents w2 w3 -> same_contents w1 w3.
Proof. unfold same_contents. intros H1 H2. by etrans. Qed.

(** A rename onto an absent name keeps the files of the directory. *)
Lemma contents_rename (d : gmap pystr fileid) src dst c :
  d !! src = Some c -> d !! dst = None ->
  contents (<[dst := c]> (delete src d)) ≡ₚ contents d.
Proof.
  intros Hsrc Hdst. unfold contents.
  assert (dst <> src) as Hne by congruence.
  rewrite map_to_list_insert by (by rewrite lookup_delete_ne).
  rewrite <- (map_to_list_delete d src c Hsrc).
  done.
Qed.

(** Where [os.path.exists] can examine every name, the renamer renames
    onto an absent name. *)
Lemma rename_to_description_keeps_contents src ext short_title :
  (forall t path, os_stat_fails E t path = false) ->
  framed same_contents (rename_to_description src ext short_title).
Proof.
  intros Hstat w.
  destruct (rename_to_description_eq src ext short_title w)
    as (n & Hfree & _ & Heq).
  apply path_exists_free in Hfree; [|apply Hstat].
  unfold wp. rewrite Heq. unfold bind.
  destruct (fs w !! src) as [c|] eqn:Hsrc.
  - destruct (os_refuses E (clock w) src
                (candidate (sanitize short_title ++ PROCESSED_SUFFIX) ext n))
      eqn:Href.
    + rewrite (os_rename_refused _ _ c) by done.
      unfold same_contents. simpl. reflexivity.
    + rewrite (os_rename_done _ _ c) by done. simpl.
      unfold same_contents. simpl. by apply contents_rename.
  - rewrite os_rename_missing by done.
    unfold same_contents. simpl. reflexivity.
Qed.

Ltac frame_same_fs lem :=
  apply (lem same_fs (fun _ => True));
  first [ exact same_fs_refl | exact same_fs_trans
        | (intros; split; reflexivity) | (intros; exact I) ].

Lemma get_batch_info_keeps_fs image_batch :
  framed_returns same_fs (get_batch_info_from_images image_batch).
Proof. frame_same_fs framed_get_batch_info_from_images. Qed.

Lemma load_images_keeps_fs files image_batch failed :
  framed_returns same_fs (load_images files image_batch failed).
Proof. frame_same_fs framed_load_images. Qed.

Lemma reply_cases (r : exn + list (pystr * pystr)) :
  r = inl APIError \/ r <> inl APIError.
Proof. destruct r as [[]|]; (by left) || (by right). Qed.

(** X1. Whatever the remote model answers, the batch flow returns, leaves the
    directory and the client alone, and with a client in place sends one to
    [MAX_RETRIES] requests with a pause of [RETRY_DELAY] seconds between two
    of them and none after the last; without a client it sends none. *)
Theorem batch_flow_bounded image_batch w :
  exists r w',
    get_batch_info_from_images image_batch w = Returns r w'
    /\ fs w' = fs w
    /\ gemini_client w' = gemini_client w
    /\ if gemini_client w
       then exists k,
              k < MAX_RETRIES
              /\ requests_and_sleeps (trace w')
                 = requests_and_sleeps (trace w)
                     ++ retried_requests (List.map fst image_batch) k
       else r = None
            /\ requests_and_sleeps (trace w') = requests_and_sleeps (trace w).
Proof.
  destruct (wp_returns _ _ _ (get_batch_info_keeps_fs image_batch w))
    as (r & w' & Hrun & Hfs & Hcl).
  exists r, w'. split; [done|]. split; [done|]. split; [done|].
  destruct (gemini_client w) eqn:Hc.
  - rewrite get_batch_info_ready in Hrun by done.
    set (names := List.map fst image_batch).
    assert (forall k,
              k < MAX_RETRIES ->
              (forall j, j < k ->
                 batch_reply E (clock w + j) names = inl APIError) ->
              batch_reply E (clock w + k) names <> inl APIError ->
              exists k0, k0 < MAX_RETRIES
                /\ requests_and_sleeps (trace w')
                   = requests_and_sleeps (trace w)
                       ++ retried_requests names k0) as Hsettled.
    { intros k Hk Hfail Hlast.
      destruct (batch_attempts_run image_batch k (S MAX_RETRIES) 0 w)
        as (w1 & Hrun1 & _ & Hio); [unfold MAX_RETRIES in *; lia|done..|].
      rewrite Hrun in Hrun1. injection Hrun1 as _ <-. by exists k. }
    destruct (reply_cases (batch_reply E (clock w + 0) names)) as [H0|H0].
    2:{ apply (Hsettled 0); [unfold MAX_RETRIES; lia|intros; lia|done]. }
    destruct (reply_cases (batch_reply E (clock w + 1) names)) as [H1|H1].
    2:{ apply (Hsettled 1); [unfold MAX_RETRIES; lia| |done].
        intros j Hj. by replace j with 0 by lia. }
    destruct (reply_cases (batch_reply E (clock w + 2) names)) as [H2|H2].
    2:{ apply (Hsettled 2); [unfold MAX_RETRIES; lia| |done].
        intros j Hj. destruct j as [|[|j]]; [done|done|lia]. }
    destruct (batch_attempts_give_up image_batch 2 (S MAX_RETRIES) 0 w)
      as (w1 & Hrun1 & _ & Hio); [unfold MAX_RETRIES; lia|done| |].
    { intros j Hj. destruct j as [|[|[|j]]]; [done|done|done|lia]. }
    rewrite Hrun in Hrun1. injection Hrun1 as _ <-.
    exists 2. split; [unfold MAX_RETRIES; lia|done].
  - unfold get_batch_info_from_images in Hrun. unfold bind at 1 in Hrun.
    unfold get_client in Hrun. rewrite Hc in Hrun. simpl in Hrun.
    injection Hrun as <- <-. split; [done|]. simpl.
    by rewrite requests_and_sleeps_app, app_nil_r.
Qed.

Ltac frame_same_events lem keep :=
  apply (lem (same_events keep) (fun ev => keep ev = false));
  first [ exact (same_events_refl keep) | exact (same_events_trans keep)
        | exact (same_events_emit keep) | (intros; reflexivity) ].

Lemma requests_and_sleeps_filter t :
  requests_and_sleeps t = List.filter is_request_or_sleep t.
Proof. done. Qed.

Lemma rename_to_description_same_events keep src ext short_title :
  (forall s d b, keep (Rename s d b) = false) ->
  framed (same_events keep) (rename_to_description src ext short_title).
Proof.
  intros Hk.
  apply (framed_rename_to_description_by_parts (same_events keep)
           (fun ev => keep ev = false));
    first [ exact (same_events_refl keep) | exact (same_events_trans keep)
          | exact (same_events_emit keep) | (intros; reflexivity)
          | exact Hk ].
Qed.

Lemma isolating_no_request original_filename temp_filename :
  framed (same_events is_request_or_sleep)
    (isolating original_filename temp_filename).
Proof. frame_same_events framed_isolating is_request_or_sleep. Qed.

Lemma rollback_no_request original_filename temp_filename e :
  framed_returns (same_events is_request_or_sleep)
    (rollback original_filename temp_filename e).
Proof. frame_same_events framed_rollback is_request_or_sleep. Qed.

Lemma renaming_no_request temp_filename ext short_title :
  framed (same_events is_request_or_sleep)
    (renaming temp_filename ext short_title).
Proof.
  apply (framed_renaming (same_events is_request_or_sleep)
           (fun ev => is_request_or_sleep ev = false));
    first [ exact (same_events_refl is_request_or_sleep)
          | exact (same_events_trans is_request_or_sleep)
          | exact (same_events_emit is_request_or_sleep)
          | (intros; reflexivity)
          | (intros; by apply rename_to_description_same_events) ].
Qed.

(** Requesting sends at most one request, and exactly one when it returns. *)
Lemma requesting_requests temp_filename w :
  wp (requesting temp_filename) w
    (fun _ w' =>
       requests_and_sleeps (trace w')
       = requests_and_sleeps (trace w) ++ [SingleRequest])
    (fun _ w' =>
       requests_and_sleeps (trace w') = requests_and_sleeps (trace w)
       \/ requests_and_sleeps (trace w')
          = requests_and_sleeps (trace w) ++ [SingleRequest]).
Proof.
  unfold wp, requesting, Image_open, request_single.
  unfold bind, tick, get_fs, emit, raise, ret.
  simpl. destruct (fs w !! temp_filename); simpl.
  2:{ left. by rewrite requests_and_sleeps_app, app_nil_r. }
  destruct (image_unreadable E (clock w) temp_filename); simpl.
  { left. by rewrite requests_and_sleeps_app, app_nil_r. }
  assert (requests_and_sleeps
            ((trace w ++ [Open temp_filename true]) ++ [SingleRequest])
          = requests_and_sleeps (trace w) ++ [SingleRequest]) as Hio.
  { rewrite !requests_and_sleeps_app. simpl. by rewrite app_nil_r. }
  destruct (single_reply E (S (clock w))) as [e|[|[|x t]|[|]]]; simpl;
    auto.
Qed.

Ltac io_norm :=
  repeat match goal with
         | H : same_events is_request_or_sleep ?a ?b |- _ =>
             change (requests_and_sleeps (trace b)
                     = requests_and_sleeps (trace a)) in H
         end.

Lemma recovery_attempt_requests original_filename temp_filename w :
  wp (recovery_attempt original_filename temp_filename) w
    (fun _ w' =>
       requests_and_sleeps (trace w') = requests_and_sleeps (trace w)
       \/ requests_and_sleeps (trace w')
          = requests_and_sleeps (trace w) ++ [SingleRequest])
    never.
Proof.
  unfold recovery_attempt. apply wp_try, wp_bind.
  eapply wp_mono; [apply isolating_no_request|..].
  - intros [] w1 H1. cbv beta. apply wp_bind.
    eapply wp_mono; [apply requesting_requests|..].
    + intros t w2 H2. cbv beta in *.
      eapply wp_mono; [apply renaming_no_request|..].
      * intros ok w3 H3. cbv beta in *.
        right. io_norm. congruence.
      * intros e w3 H3. cbv beta in *.
        eapply wp_mono; [apply rollback_no_request| |done].
        intros ok w4 H4. cbv beta in *.
        right. io_norm. congruence.
    + intros e w2 H2. cbv beta in *.
      eapply wp_mono; [apply rollback_no_request| |done].
      intros ok w3 H3. cbv beta in *.
      io_norm.
      destruct H2 as [H2|H2]; [left|right]; congruence.
  - intros e w1 H1. cbv beta in *.
    eapply wp_mono; [apply rollback_no_request| |done].
    intros ok w2 H2. cbv beta in *.
    left. io_norm. congruence.
Qed.

(** X2. The recovery flow returns, keeps the client, and sends at most one
    request: there is no retry at this layer, and no pause. *)
Theorem recovery_sends_at_most_one_request original_filename w :
  exists ok w',
    retry_failed_file original_filename w = Returns ok w'
    /\ gemini_client w' = gemini_client w
    /\ (requests_and_sleeps (trace w') = requests_and_sleeps (trace w)
        \/ requests_and_sleeps (trace w')
           = requests_and_sleeps (trace w) ++ [SingleRequest]).
Proof.
  apply wp_returns. unfold retry_failed_file. apply wp_bind.
  unfold wp at 1, get_client.
  destruct (gemini_client w) eqn:Hc; simpl; [|apply wp_ret; auto].
  apply wp_bind. unfold wp at 1. rewrite choose_temp_name_eq.
  eapply wp_mono;
    [apply wp_conj;
       [apply quiet_recovery_attempt|apply recovery_attempt_requests]
    | |by intros ? ? [? _]].
  intros ok w' [[Hcl _] Hio]. cbv beta in *. simpl in Hcl, Hio.
  split; [congruence|].
  rewrite !requests_and_sleeps_app in Hio. simpl in Hio.
  by rewrite !app_nil_r in Hio.
Qed.

(** ** What the batch phase keeps, and when it pauses *)

Lemma batch_loop_keeps_contents all_files use_delay fuel file_index count
    failed :
  (forall t path, os_stat_fails E t path = false) ->
  length all_files - file_index < fuel ->
  framed_returns same_contents
    (batch_loop fuel all_files use_delay file_index count failed).
Proof.
  intros Hstat.
  apply (framed_batch_loop same_contents (fun _ => True));
    first [ exact same_contents_refl | exact same_contents_trans
          | (intros; by apply rename_to_description_keeps_contents)
          | (intros; unfold same_contents; reflexivity)
          | (intros; exact I) ].
Qed.

(** X3. Where [os.path.exists] can examine every name (no symbolic link
    whose target is gone, no entry [os.stat] fails on), the batch phase only
    renames onto absent names: when it is over the directory holds the same
    files as before, each once, none lost and none overwritten. *)
Theorem batch_phase_keeps_every_file all_files use_delay w :
  (forall t path, os_stat_fails E t path = false) ->
  exists st w',
    batch_loop (S (length all_files)) all_files use_delay 0 0 [] w
      = Returns st w'
    /\ contents (fs w') ≡ₚ contents (fs w)
    /\ size (fs w') = size (fs w).
Proof.
  intros Hstat.
  destruct (wp_returns _ _ _
              (batch_loop_keeps_contents all_files use_delay
                 (S (length all_files)) 0 0 [] Hstat ltac:(lia) w))
    as (st & w' & Hrun & Hsame).
  exists st, w'. split; [done|]. split; [done|].
  unfold same_contents, contents in Hsame.
  apply Permutation_length in Hsame.
  rewrite !length_fmap, !length_map_to_list in Hsame. done.
Qed.

Lemma wp_framed_bind {A B} (R : World -> World -> Prop) (m : M A)
    (k : A -> M B) w Q Qe :
  framed_returns R m ->
  (forall a w', R w w' -> wp (k a) w' Q Qe) ->
  wp (bind m k) w Q Qe.
Proof.
  intros Hm Hk. apply wp_bind.
  eapply wp_mono; [apply Hm| |done]. intros a w' Hr. by apply Hk.
Qed.

Lemma batch_count_0 : batch_count 0 = 0.
Proof. done. Qed.

Lemma batch_count_step n :
  0 < n -> batch_count n = S (batch_count (n - BATCH_SIZE)).
Proof.
  intros Hn. unfold batch_count, BATCH_SIZE.
  destruct (decide (10 <= n)) as [Hge|Hlt].
  - replace (n + (10 - 1)) with ((n - 10 + (10 - 1)) + 1 * 10) by lia.
    rewrite Nat.div_add by lia. lia.
  - replace (n - 10) with 0 by lia.
    change ((0 + (10 - 1)) / 10) with 0.
    symmetry. apply (Nat.div_unique _ _ _ (n - 1)); lia.
Qed.

Lemma log_no_pause m tag :
  framed_returns (same_events is_pause) (log_message m tag).
Proof. intros w. by apply same_events_emit. Qed.

Lemma process_batch_no_pause files count failed :
  framed_returns (same_events is_pause) (process_batch files count failed).
Proof.
  apply (framed_process_batch (same_events is_pause)
           (fun ev => is_pause ev = false));
    first [ exact (same_events_refl is_pause)
          | exact (same_events_trans is_pause)
          | exact (same_events_emit is_pause)
          | (intros; reflexivity)
          | (intros; by apply rename_to_description_same_events) ].
Qed.

Lemma retry_loop_no_pause files count :
  framed_returns (same_events is_pause) (retry_loop files count).
Proof.
  apply (framed_retry_loop (same_events is_pause)
           (fun ev => is_pause ev = false));
    first [ exact (same_events_refl is_pause)
          | exact (same_events_trans is_pause)
          | exact (same_events_emit is_pause)
          | (intros; reflexivity)
          | (intros; by apply rename_to_description_same_events) ].
Qed.

Lemma os_listdir_no_pause :
  framed_returns (same_events is_pause) os_listdir.
Proof.
  apply (framed_os_listdir (same_events is_pause)
           (fun ev => is_pause ev = false));
    first [ exact (same_events_refl is_pause)
          | exact (same_events_trans is_pause)
          | exact (same_events_emit is_pause)
          | (intros; reflexivity) ].
Qed.

Lemma batch_loop_pauses all_files use_delay fuel :
  forall file_index count failed w,
    length all_files - file_index < fuel ->
    wp (batch_loop fuel all_files use_delay file_index count failed) w
      (fun _ w' =>
         length (List.filter is_pause (trace w'))
         = length (List.filter is_pause (trace w))
           + (if use_delay
              then batch_count (length all_files - file_index) - 1
              else 0))
      never.
Proof.
  induction fuel as [|fuel IH]; intros file_index count failed w Hfuel; [lia|].
  simpl. destruct (file_index <? length all_files) eqn:Hlt.
  - apply Nat.ltb_lt in Hlt.
    apply (wp_framed_bind (same_events is_pause));
      [apply process_batch_no_pause|].
    intros st w1 H1. cbv zeta. unfold same_events in H1.
    rewrite (batch_count_step (length all_files - file_index)) by lia.
    replace (length all_files - file_index - BATCH_SIZE)
      with (length all_files - (file_index + BATCH_SIZE)) by lia.
    destruct use_delay; simpl.
    + destruct (file_index + BATCH_SIZE <? length all_files) eqn:Hmore.
      * apply Nat.ltb_lt in Hmore.
        apply wp_bind, wp_bind, wp_log, wp_emit.
        eapply wp_mono; [apply IH; unfold BATCH_SIZE in *; lia| |done].
        intros r w2 H2. cbv beta in *. simpl in H2.
        rewrite H2, !List.filter_app, !length_app, H1. simpl.
        rewrite (batch_count_step
                   (length all_files - (file_index + BATCH_SIZE))) by lia.
        lia.
      * apply Nat.ltb_ge in Hmore. apply wp_bind, wp_ret.
        eapply wp_mono; [apply IH; unfold BATCH_SIZE in *; lia| |done].
        intros r w2 H2. cbv beta in *.
        replace (length all_files - (file_index + BATCH_SIZE)) with 0 in *
          by lia.
        rewrite batch_count_0 in *. rewrite H2, H1. lia.
    + apply wp_bind, wp_ret.
      eapply wp_mono; [apply IH; unfold BATCH_SIZE in *; lia| |done].
      intros r w2 H2. cbv beta in *. rewrite H2, H1. lia.
  - apply Nat.ltb_ge in Hlt. apply wp_ret.
    replace (length all_files - file_index) with 0 by lia.
    rewrite batch_count_0. destruct use_delay; simpl; lia.
Qed.

(** X4. With the option on, a run pauses 5 seconds once between two
    consecutive batches and never after the last one: one pause less than
    there are batches of [BATCH_SIZE] eligible files; with the option off
    it never pauses. *)
Theorem pauses_only_between_batches use_delay w :
  exists tally w',
    rename_images_in_directory use_delay w = Returns tally w'
    /\ length (List.filter is_pause (trace w'))
       = length (List.filter is_pause (trace w))
         + (if use_delay
            then batch_count (total_eligible_files tally) - 1
            else 0).
Proof.
  apply wp_returns. unfold rename_images_in_directory.
  apply (wp_framed_bind (same_events is_pause)); [apply log_no_pause|].
  intros [] w1 H1.
  apply (wp_framed_bind (same_events is_pause)); [apply os_listdir_no_pause|].
  intros listing w2 H2. cbv zeta.
  set (all_files := List.filter is_eligible listing).
  apply (wp_framed_bind (same_events is_pause)); [apply log_no_pause|].
  intros [] w3 H3. apply wp_bind.
  eapply wp_mono; [apply batch_loop_pauses; lia| |done].
  intros st w4 H4. cbv beta in *. rewrite Nat.sub_0_r in H4.
  apply (wp_framed_bind (same_events is_pause)).
  { destruct (sorted_set st.2).
    - intros w5. apply wp_ret, same_events_refl.
    - intros w5.
      apply (wp_framed_bind (same_events is_pause)); [apply log_no_pause|].
      intros [] w6 H6.
      eapply wp_mono; [apply retry_loop_no_pause| |done].
      intros r w7 H7. cbv beta in *. by eapply same_events_trans. }
  intros retry_count w5 H5.
  do 4 (apply (wp_framed_bind (same_events is_pause)); [apply log_no_pause|];
        intros [] ? ?).
  apply wp_bind, wp_emit, wp_ret. simpl.
  unfold same_events in *.
  rewrite List.filter_app, length_app. simpl.
  rewrite Nat.add_0_r. congruence.
Qed.

(** ** Loading, in listing order *)

Lemma opened_paths_app t1 t2 :
  opened_paths (t1 ++ t2) = opened_paths t1 ++ opened_paths t2.
Proof. apply omap_app. Qed.

Lemma opened_paths_filter t :
  opened_paths (List.filter is_open t) = opened_paths t.
Proof.
  induction t as [|ev t IH]; simpl; [done|].
  destruct ev; simpl; try done. unfold opened_paths in *. simpl.
  by f_equal.
Qed.

Lemma same_events_opened w w' :
  same_events is_open w w' ->
  opened_paths (trace w') = opened_paths (trace w).
Proof.
  unfold same_events. intros H.
  by rewrite <- (opened_paths_filter (trace w')), H, opened_paths_filter.
Qed.

Lemma Image_open_opens path w :
  wp (Image_open path) w
    (fun _ w' => opened_paths (trace w') = opened_paths (trace w) ++ [path])
    (fun _ w' => opened_paths (trace w') = opened_paths (trace w) ++ [path]).
Proof.
  unfold wp, Image_open. unfold bind, tick, get_fs, emit, raise, ret. simpl.
  destruct (fs w !! path); simpl; [|by rewrite opened_paths_app].
  destruct (image_unreadable E (clock w) path); simpl;
    by rewrite opened_paths_app.
Qed.

Lemma load_images_opens files : forall image_batch failed w,
  wp (load_images files image_batch failed) w
    (fun _ w' => opened_paths (trace w') = opened_paths (trace w) ++ files)
    never.
Proof.
  induction files as [|f rest IH]; intros image_batch failed w; simpl.
  { apply wp_ret. by rewrite app_nil_r. }
  apply wp_bind, wp_try, wp_bind.
  eapply wp_mono; [apply Image_open_opens|..]; cbv beta.
  - intros img w1 H1. apply wp_ret.
    eapply wp_mono; [apply IH| |done].
    intros r w2 H2. cbv beta in *. by rewrite H2, H1, <- app_assoc.
  - intros e w1 H1. apply wp_bind, wp_log, wp_ret.
    eapply wp_mono; [apply IH| |done].
    intros r w2 H2. cbv beta in *. simpl in H2.
    rewrite H2, opened_paths_app, H1. simpl.
    by rewrite app_nil_r, <- app_assoc.
Qed.

Lemma get_batch_info_no_open image_batch :
  framed_returns (same_events is_open)
    (get_batch_info_from_images image_batch).
Proof. frame_same_events framed_get_batch_info_from_images is_open. Qed.

Lemma apply_batch_result_no_open result_map files image_batch count failed :
  framed_returns (same_events is_open)
    (apply_batch_result result_map files image_batch count failed).
Proof.
  apply (framed_apply_batch_result (same_events is_open)
           (fun ev => is_open ev = false));
    first [ exact (same_events_refl is_open)
          | exact (same_events_trans is_open)
          | exact (same_events_emit is_open)
          | (intros; reflexivity)
          | (intros; by apply rename_to_description_same_events) ].
Qed.

Lemma process_batch_opens files count failed w :
  wp (process_batch files count failed) w
    (fun _ w' => opened_paths (trace w') = opened_paths (trace w) ++ files)
    never.
Proof.
  unfold process_batch. apply wp_bind.
  eapply wp_mono; [apply load_images_opens| |done].
  intros loaded w1 H1. cbv beta zeta.
  destruct loaded.1; [by apply wp_ret|].
  apply (wp_framed_bind (same_events is_open));
    [apply get_batch_info_no_open|].
  intros result_map w2 H2%same_events_opened.
  eapply wp_mono; [apply apply_batch_result_no_open| |done].
  intros r w3 H3%same_events_opened. cbv beta. congruence.
Qed.

Lemma batch_loop_opens all_files use_delay fuel :
  forall file_index count failed w,
    length all_files - file_index < fuel ->
    wp (batch_loop fuel all_files use_delay file_index count failed) w
      (fun _ w' =>
         opened_paths (trace w')
         = opened_paths (trace w) ++ drop file_index all_files)
      never.
Proof.
  induction fuel as [|fuel IH]; intros file_index count failed w Hfuel; [lia|].
  simpl. destruct (file_index <? length all_files) eqn:Hlt.
  - apply Nat.ltb_lt in Hlt. apply wp_bind.
    eapply wp_mono; [apply process_batch_opens| |done].
    intros st w1 H1. cbv beta zeta.
    assert (take BATCH_SIZE (drop file_index all_files)
              ++ drop (file_index + BATCH_SIZE) all_files
            = drop file_index all_files) as Hsplit.
    { rewrite <- drop_drop. apply take_drop. }
    destruct (use_delay && (file_index + BATCH_SIZE <? length all_files)).
    + apply wp_bind, wp_bind, wp_log, wp_emit.
      eapply wp_mono; [apply IH; unfold BATCH_SIZE; lia| |done].
      intros r w2 H2. cbv beta in *. simpl in H2.
      rewrite H2, !opened_paths_app, H1. simpl.
      by rewrite !app_nil_r, <- app_assoc, Hsplit.
    + apply wp_bind, wp_ret.
      eapply wp_mono; [apply IH; unfold BATCH_SIZE; lia| |done].
      intros r w2 H2. cbv beta in *.
      by rewrite H2, H1, <- app_assoc, Hsplit.
  - apply Nat.ltb_ge in Hlt. apply wp_ret.
    by rewrite drop_ge, app_nil_r.
Qed.

(** X5. The batch phase loads every file of its list exactly once, in the
    order of the list: the batches are consecutive slices that leave no
    file out and take none twice. *)
Theorem batch_phase_opens_each_file_once all_files use_delay w :
  exists st w',
    batch_loop (S (length all_files)) all_files use_delay 0 0 [] w
      = Returns st w'
    /\ opened_paths (trace w') = opened_paths (trace w) ++ all_files.
Proof.
  apply wp_returns.
  eapply wp_mono; [apply batch_loop_opens; lia| |done].
  intros st w' H. cbv beta in *. by rewrite drop_0 in H.
Qed.

(** ** The marker *)

Lemma startswith_app p s : startswith p (p ++ s) = true.
Proof. induction p as [|a p IH]; simpl; [done|]. by rewrite N.eqb_refl. Qed.

Lemma contains_startswith sub s :
  startswith sub s = true -> contains sub s = true.
Proof. destruct s; simpl; [done|]. by intros ->. Qed.

Lemma contains_app sub a b : contains sub (a ++ sub ++ b) = true.
Proof.
  induction a as [|x a IH].
  - rewrite app_nil_l. apply contains_startswith, startswith_app.
  - change (contains sub ((x :: a) ++ sub ++ b))
      with (startswith sub ((x :: a) ++ sub ++ b)
            || contains sub (a ++ sub ++ b)).
    rewrite IH. apply orb_true_r.
Qed.

Lemma endswith_app p s : endswith p (s ++ p) = true.
Proof. unfold endswith. rewrite rev_app_distr. apply startswith_app. Qed.

Lemma candidate_marked cleaned_title ext n :
  contains PROCESSED_SUFFIX
    (candidate (cleaned_title ++ PROCESSED_SUFFIX) ext n) = true
  /\ endswith ext (candidate (cleaned_title ++ PROCESSED_SUFFIX) ext n) = true.
Proof.
  destruct n as [|n]; unfold candidate.
  - split; [rewrite <- app_assoc; apply contains_app|apply endswith_app].
  - split; [rewrite <- app_assoc; apply contains_app|].
    rewrite !app_assoc. apply endswith_app.
Qed.

(** X6. Whatever the title, the name the renamer gives a file carries the
    processed marker and ends with the extension it was given, so the file
    is not eligible in a later run; the file itself is what was under the
    old name. *)
Theorem renamed_file_is_never_eligible src ext short_title w
    new_filename counter w' :
  rename_to_description src ext short_title w
    = Returns (new_filename, counter) w' ->
  is_eligible new_filename = false
  /\ contains PROCESSED_SUFFIX new_filename = true
  /\ endswith ext new_filename = true
  /\ is_Some (fs w !! src)
  /\ fs w' !! new_filename = fs w !! src.
Proof.
  intros Hrun.
  destruct (rename_to_description_eq src ext short_title w)
    as (n & Hfree & _ & Heq).
  rewrite Heq in Hrun. unfold bind in Hrun.
  destruct (fs w !! src) as [c|] eqn:Hsrc.
  - destruct (os_refuses E (clock w) src
                (candidate (sanitize short_title ++ PROCESSED_SUFFIX) ext n))
      eqn:Href.
    + by rewrite (os_rename_refused _ _ c) in Hrun.
    + rewrite (os_rename_done _ _ c) in Hrun by done.
      injection Hrun as <- <- <-.
      destruct (candidate_marked (sanitize short_title) ext n) as [Hc He].
      split; [unfold is_eligible; rewrite Hc; apply andb_false_r|].
      split; [done|]. split; [done|]. split; [eauto|].
      simpl. apply lookup_insert_eq.
  - by rewrite os_rename_missing in Hrun.
Qed.

(** ** The result mapping *)

Lemma build_result_map_snoc descriptions f t :
  build_result_map (descriptions ++ [(f, t)])
  = <[f := t]> (build_result_map descriptions).
Proof. unfold build_result_map. by rewrite foldl_app. Qed.

(** X7. The mapping gives a file name the title of the last description that
    names it, and nothing when no description names it. *)
Theorem build_result_map_last_wins descriptions f :
  build_result_map descriptions !! f
  = last (omap (fun d : pystr * pystr =>
                  if decide (d.1 = f) then Some d.2 else None)
               descriptions).
Proof.
  induction descriptions as [|[g t] ds IH] using rev_ind; [done|].
  rewrite build_result_map_snoc, omap_app. simpl.
  destruct (decide (g = f)) as [->|Hne].
  - rewrite lookup_insert_eq. by rewrite last_snoc.
  - rewrite lookup_insert_ne by done. by rewrite app_nil_r.
Qed.

(** ** How the recovery flow can end *)

Lemma quiet_not_diverges {A} (m : M A) w : quiet m -> m w <> Diverges.
Proof. intros H Hd. specialize (H w). unfold wp in H. by rewrite Hd in H. Qed.

Lemma rollback_outcome (original_filename temp_filename : pystr) (e : exn)
    (c : fileid) (d : gmap pystr fileid) (w : World) :
  fs w = <[temp_filename := c]> (delete original_filename d) ->
  d !! temp_filename = None ->
  d !! original_filename = Some c ->
  exists w',
    rollback original_filename temp_filename e w = Returns false w'
    /\ (fs w' = d
        \/ (fs w' = <[temp_filename := c]> (delete original_filename d)
            /\ last (trace w') = Some (Log MsgFatalRestore error))).
Proof.
  intros Hfs Hfree Horig.
  assert (fs w !! temp_filename = Some c) as Htmp
    by (rewrite Hfs; apply lookup_insert_eq).
  destruct (os_refuses E (clock w) temp_filename original_filename) eqn:Hr.
  - rewrite rollback_fatal by auto. eexists. split; [done|].
    right. simpl. split; [done|]. by rewrite last_snoc.
  - rewrite (rollback_restores _ _ _ c) by done. eexists. split; [done|].
    left. simpl. rewrite Hfs, restored_directory.
    rewrite delete_id by done. by apply insert_id.
Qed.

Lemma recovery_attempt_renaming_raises
    original_filename temp_filename w0 w1 short_title w2 e w3 :
  isolating original_filename temp_filename w0 = Returns tt w1 ->
  requesting temp_filename w1 = Returns short_title w2 ->
  rename_to_description temp_filename (splitext_ext original_filename)
    short_title w2 = Raises e w3 ->
  recovery_attempt original_filename temp_filename w0
  = rollback original_filename temp_filename e w3.
Proof.
  intros H1 H2 H3. unfold recovery_attempt, try_except. unfold bind at 1.
  rewrite H1. unfold bind at 1. rewrite H2.
  unfold renaming. unfold bind at 1. by rewrite H3.
Qed.

Lemma recovery_attempt_renamed
    original_filename temp_filename w0 w1 short_title w2 new_filename
    counter w3 :
  isolating original_filename temp_filename w0 = Returns tt w1 ->
  requesting temp_filename w1 = Returns short_title w2 ->
  rename_to_description temp_filename (splitext_ext original_filename)
    short_title w2 = Returns (new_filename, counter) w3 ->
  exists w',
    recovery_attempt original_filename temp_filename w0 = Returns true w'
    /\ fs w' = fs w3.
Proof.
  intros H1 H2 H3. unfold recovery_attempt, try_except. unfold bind at 1.
  rewrite H1. unfold bind at 1. rewrite H2.
  rewrite (renaming_done _ _ _ _ _ _ _ H3). by eexists.
Qed.

(** X8. With a client in place, the file present and the temporary name
    unused, the recovery flow ends in one of three ways: it returns success
    and the file is under a marked name, every other entry as before; or it
    returns failure and the directory is exactly as before; or it returns
    failure with the file left under the temporary name, and "FATAL" is the
    last message.  The marked name was its own, or absent from the
    directory, or a name that [os.path.exists] could not examine: only an
    entry of that last kind is replaced. *)
Theorem recovery_ends_three_ways original_filename c w temp_filename w0 :
  gemini_client w = true ->
  fs w !! original_filename = Some c ->
  choose_temp_name original_filename w = Returns temp_filename w0 ->
  fs w !! temp_filename = None ->
  exists ok w',
    retry_failed_file original_filename w = Returns ok w'
    /\ if ok
       then exists new_filename,
              fs w' = <[new_filename := c]> (delete original_filename (fs w))
              /\ (new_filename = original_filename
                  \/ fs w !! new_filename = None
                  \/ exists t, os_stat_fails E t new_filename = true)
              /\ contains PROCESSED_SUFFIX new_filename = true
       else fs w' = fs w
            \/ (fs w' = <[temp_filename := c]>
                          (delete original_filename (fs w))
                /\ last (trace w') = Some (Log MsgFatalRestore error)).
Proof.
  intros Hclient Horig Htemp Hfree.
  rewrite (retry_failed_file_run _ _ _ _ Hclient Htemp).
  apply choose_temp_name_frame in Htemp as [Hfs0 _].
  destruct (isolating original_filename temp_filename w0)
    as [[] w1|e w1|] eqn:Hiso.
  3:{ by destruct (quiet_not_diverges _ w0
                     (quiet_isolating original_filename temp_filename)). }
  2:{ rewrite (recovery_attempt_isolating_raises _ _ _ _ _ Hiso).
      apply isolating_raises in Hiso as [-> ->].
      rewrite rollback_fatal by (left; simpl; by rewrite Hfs0).
      exists false. eexists. split; [done|]. left. done. }
  pose proof Hiso as Hiso'.
  apply isolating_returns in Hiso' as (c' & Hc' & _ & Hfs1 & _).
  rewrite Hfs0 in Hc', Hfs1. assert (c' = c) as -> by congruence.
  destruct (requesting temp_filename w1) as [t w2|e w2|] eqn:Hreq.
  3:{ by destruct (quiet_not_diverges _ w1 (quiet_requesting temp_filename)). }
  2:{ rewrite (recovery_attempt_requesting_raises _ _ _ _ _ _ Hiso Hreq).
      apply requesting_raises_frame in Hreq as [Hfs2 _].
      rewrite Hfs1 in Hfs2.
      destruct (rollback_outcome original_filename temp_filename e c
                  (fs w) w2 Hfs2 Hfree Horig) as (w' & Hrun & Hcase).
      by exists false, w'. }
  pose proof Hreq as Hreq'.
  apply requesting_returns_frame in Hreq' as (_ & Hfs2 & _).
  rewrite Hfs1 in Hfs2.
  set (ext := splitext_ext original_filename) in *.
  destruct (rename_to_description temp_filename ext t w2)
    as [[new_filename counter] w3|e w3|] eqn:Hren.
  3:{ by destruct (quiet_not_diverges _ w2
                     (quiet_rename_to_description temp_filename ext t)). }
  - destruct (recovery_attempt_renamed _ _ _ _ _ _ _ _ _ Hiso Hreq Hren)
      as (w' & Hrun & Hfs').
    exists true, w'. split; [done|]. exists new_filename.
    destruct (rename_to_description_eq temp_filename ext t w2)
      as (n & Hnfree & _ & Heq).
    rewrite Heq in Hren. unfold bind in Hren.
    assert (fs w2 !! temp_filename = Some c) as Htmp
      by (rewrite Hfs2; apply lookup_insert_eq).
    destruct (os_refuses E (clock w2) temp_filename
                (candidate (sanitize t ++ PROCESSED_SUFFIX) ext n)) eqn:Href.
    { by rewrite (os_rename_refused _ _ c) in Hren. }
    rewrite (os_rename_done _ _ c) in Hren by done.
    injection Hren as <- <- <-. simpl in Hfs'.
    split.
    { rewrite Hfs', Hfs2. f_equal.
      rewrite delete_insert_eq. apply delete_id.
      rewrite lookup_delete_ne by congruence. done. }
    split; [|apply candidate_marked].
    set (new_filename := candidate (sanitize t ++ PROCESSED_SUFFIX) ext n)
      in *.
    destruct (os_stat_fails E (clock w2) new_filename) eqn:Hstat;
      [right; right; by exists (clock w2)|].
    apply path_exists_free in Hnfree; [|done].
    rewrite Hfs2 in Hnfree.
    assert (new_filename <> temp_filename) as Hne.
    { intros Heq'. rewrite Heq', lookup_insert_eq in Hnfree. done. }
    rewrite lookup_insert_ne in Hnfree by done.
    destruct (decide (new_filename = original_filename)) as [?|Hno];
      [by left|].
    right; left. by rewrite lookup_delete_ne in Hnfree.
  - rewrite (recovery_attempt_renaming_raises _ _ _ _ _ _ _ _ Hiso Hreq Hren).
    assert (fs w3 = fs w2) as Hfs3.
    { destruct (rename_to_description_eq temp_filename ext t w2)
        as (n & _ & _ & Heq).
      rewrite Heq in Hren. unfold bind in Hren.
      destruct (fs w2 !! temp_filename) as [c0|] eqn:Htmp.
      - destruct (os_refuses E (clock w2) temp_filename
                    (candidate (sanitize t ++ PROCESSED_SUFFIX) ext n))
          eqn:Href.
        + rewrite (os_rename_refused _ _ c0) in Hren by done.
          by injection Hren as _ <-.
        + by rewrite (os_rename_done _ _ c0) in Hren.
      - rewrite os_rename_missing in Hren by done.
        by injection Hren as _ <-. }
    rewrite Hfs2 in Hfs3.
    destruct (rollback_outcome original_filename temp_filename e c
                (fs w) w3 Hfs3 Hfree Horig) as (w' & Hrun & Hcase).
    by exists false, w'.
Qed.

(** ** A run without a client *)

Lemma idle_refl w : idle w w.
Proof. done. Qed.

Lemma idle_trans w1 w2 w3 : idle w1 w2 -> idle w2 w3 -> idle w1 w3.
Proof. intros (? & ? & ?) (? & ? & ?). repeat split; congruence. Qed.

Lemma idle_emit w ev :
  is_effect ev = false ->
  idle w (mkWorld (fs w) (clock w) (trace w ++ [ev]) (gemini_client w)).
Proof.
  intros H. repeat split. simpl.
  rewrite List.filter_app. simpl. by rewrite H, app_nil_r.
Qed.

Ltac frame_idle lem :=
  apply (lem idle (fun ev => is_effect ev = false));
  first [ exact idle_refl | exact idle_trans | exact idle_emit
        | (intros; repeat split; reflexivity) | (intros; reflexivity) ].

Lemma load_images_idle files image_batch failed :
  framed_returns idle (load_images files image_batch failed).
Proof. frame_idle framed_load_images. Qed.

Lemma os_listdir_idle : framed_returns idle os_listdir.
Proof. frame_idle framed_os_listdir. Qed.

Lemma get_batch_info_no_client image_batch w :
  gemini_client w = false ->
  wp (get_batch_info_from_images image_batch) w
    (fun r w' => r = None /\ idle w w') never.
Proof.
  intros Hc. unfold wp, get_batch_info_from_images, bind, get_client.
  rewrite Hc. simpl. split; [done|]. by apply idle_emit.
Qed.

Lemma process_batch_no_client files count failed w :
  gemini_client w = false ->
  wp (process_batch files count failed) w
    (fun r w' => r.1 = count /\ idle w w') never.
Proof.
  intros Hc. unfold process_batch.
  apply (wp_framed_bind idle); [apply load_images_idle|].
  intros [image_batch failed1] w1 Hw1. cbv beta zeta. simpl.
  destruct image_batch as [|p image_batch]; [by apply wp_ret|].
  apply wp_bind.
  eapply wp_mono;
    [apply get_batch_info_no_client; destruct Hw1 as (_ & -> & _); exact Hc
    | |done].
  intros r w2 [-> Hw2]. cbv beta.
  unfold apply_batch_result. simpl. apply wp_bind, wp_log, wp_ret.
  split; [done|].
  eapply idle_trans; [exact Hw1|]. eapply idle_trans; [exact Hw2|].
  by apply idle_emit.
Qed.

Lemma batch_loop_no_client all_files use_delay :
  forall fuel file_index count failed w,
    length all_files - file_index < fuel ->
    gemini_client w = false ->
    wp (batch_loop fuel all_files use_delay file_index count failed) w
      (fun r w' => r.1 = count /\ idle w w') never.
Proof.
  induction fuel as [|fuel IH]; intros file_index count failed w Hfuel Hc;
    [lia|].
  simpl. destruct (file_index <? length all_files) eqn:Hlt;
    [|by apply wp_ret].
  apply Nat.ltb_lt in Hlt. apply wp_bind.
  eapply wp_mono; [by apply process_batch_no_client| |done].
  intros [count1 failed1] w1 [Hcount Hw1]. cbv beta zeta.
  simpl in Hcount. subst count1. simpl.
  assert (forall w2, idle w w2 ->
            wp (batch_loop fuel all_files use_delay
                  (file_index + BATCH_SIZE) count failed1) w2
              (fun r w' => r.1 = count /\ idle w w') never) as Hrest.
  { intros w2 Hw2. eapply wp_mono; [apply IH| |done].
    - unfold BATCH_SIZE. lia.
    - destruct Hw2 as (_ & -> & _). exact Hc.
    - intros r w3 [Hr Hw3]. split; [done|]. by eapply idle_trans. }
  apply wp_bind.
  destruct (use_delay && (file_index + BATCH_SIZE <? length all_files)).
  - apply wp_bind, wp_log. apply wp_emit. apply Hrest.
    eapply idle_trans; [exact Hw1|].
    eapply idle_trans; by apply idle_emit.
  - apply wp_ret. by apply Hrest.
Qed.

Lemma retry_loop_no_client files : forall count w,
  gemini_client w = false ->
  retry_loop files count w = Returns count w.
Proof.
  induction files as [|filename rest IH]; intros count w Hc; [done|].
  simpl. unfold bind at 1. unfold retry_failed_file, bind, get_client.
  rewrite Hc. simpl. by apply IH.
Qed.

(** X9. Without a client the whole run returns, renames nothing and sends
    nothing: the directory is as before, no request and no rename is on the
    trace, and every eligible file is reported as untouched. *)
Theorem run_without_client_changes_nothing use_delay w :
  gemini_client w = false ->
  exists tally w',
    rename_images_in_directory use_delay w = Returns tally w'
    /\ fs w' = fs w
    /\ List.filter is_effect (trace w') = List.filter is_effect (trace w)
    /\ total_renamed tally = 0
    /\ total_failed tally = Z.of_nat (total_eligible_files tally).
Proof.
  intros Hc. apply wp_returns.
  unfold rename_images_in_directory.
  apply wp_bind, wp_log.
  apply (wp_framed_bind idle); [apply os_listdir_idle|].
  intros listing w1 Hw1. cbv beta zeta. simpl in Hw1.
  set (all_files := List.filter is_eligible listing).
  apply wp_bind, wp_log, wp_bind.
  eapply wp_mono;
    [apply (batch_loop_no_client all_files use_delay); [lia|]| |done].
  { simpl. destruct Hw1 as (_ & -> & _). exact Hc. }
  intros [count failed] w2 [Hcount Hw2]. cbv beta zeta.
  simpl in Hcount. subst count. simpl in Hw2. cbn [fst snd].
  assert (idle w w2) as Hidle.
  { eapply idle_trans; [by apply (idle_emit w (Log MsgStarting info))|].
    eapply idle_trans; [exact Hw1|].
    eapply idle_trans; [|exact Hw2]. by apply idle_emit. }
  clear Hw1 Hw2.
  assert (gemini_client w2 = false) as Hc2
    by (destruct Hidle as (_ & -> & _); exact Hc).
  apply wp_bind.
  assert (forall w3, idle w w3 ->
            wp (log_message MsgComplete info;;
                log_message (MsgSummaryEligible (length all_files)) info;;
                log_message (MsgSummaryRenamed (0 + 0)) success;;
                log_message
                  (MsgSummaryUntouched
                     (Z.of_nat (length all_files) - Z.of_nat (0 + 0))) error;;
                messagebox_showinfo (0 + 0);;
                ret (mkTally (length all_files) 0 failed (sorted_set failed)
                       0 (0 + 0)
                       (Z.of_nat (length all_files) - Z.of_nat (0 + 0))))%Z
              w3
              (fun tally w' =>
                 fs w' = fs w
                 /\ List.filter is_effect (trace w')
                    = List.filter is_effect (trace w)
                 /\ total_renamed tally = 0
                 /\ total_failed tally
                    = Z.of_nat (total_eligible_files tally)) never) as Hend.
  { intros w3 (Hfs & _ & Htr).
    unfold wp, bind, log_message, messagebox_showinfo, emit, ret. simpl.
    rewrite !List.filter_app. simpl. rewrite !app_nil_r.
    repeat split; [done|done|lia]. }
  destruct (sorted_set failed) as [|f unique] eqn:Hu.
  - apply wp_ret. simpl. by apply Hend.
  - apply wp_bind, wp_log.
    eapply wp_of_returns; [by apply retry_loop_no_client|].
    apply Hend. eapply idle_trans; [exact Hidle|]. by apply idle_emit.
Qed.

(** ** A run with nothing to do *)

Lemma filter_nothing {A} (f : A -> bool) (l : list A) :
  (forall x, x ∈ l -> f x = false) -> List.filter f l = [].
Proof.
  induction l as [|x l IH]; intros H; simpl; [done|].
  rewrite (H x) by apply list_elem_of_here.
  apply IH. intros y Hy. apply H. by apply list_elem_of_further.
Qed.

(** X10. When no name in the directory is eligible (each lacks an image
    extension or already carries the marker), the run returns the all-zero
    tally, leaves the directory as it is, and its whole trace is the
    listing and the summary: no file is opened, no request sent, no rename
    tried. *)
Theorem run_without_eligible_files use_delay w :
  (forall f, is_Some (fs w !! f) -> is_eligible f = false) ->
  exists w',
    rename_images_in_directory use_delay w
      = Returns (mkTally 0 0 [] [] 0 0 0) w'
    /\ fs w' = fs w
    /\ trace w'
       = trace w ++ [Log MsgStarting info; Listdir;
                     Log (MsgTotalEligible 0) info;
                     Log MsgComplete info;
                     Log (MsgSummaryEligible 0) info;
                     Log (MsgSummaryRenamed 0) success;
                     Log (MsgSummaryUntouched 0) error;
                     ShowInfo 0].
Proof.
  intros Hnone.
  unfold rename_images_in_directory.
  unfold bind at 1. unfold log_message at 1, emit at 1.
  unfold bind at 1. unfold os_listdir, bind, tick, get_fs, emit, ret.
  cbn [fs clock trace gemini_client].
  rewrite filter_nothing.
  2:{ intros x Hx. apply Hnone.
      rewrite merge_sort_Permutation in Hx.
      apply elem_of_elements, elem_of_dom in Hx. exact Hx. }
  eexists. split; [reflexivity|]. split; [done|].
  cbn [trace]. by rewrite <- !app_assoc.
Qed.

(** ** The configuration file *)

Lemma startswith_split p : forall s,
  startswith p s = true -> s = p ++ drop (length p) s.
Proof.
  induction p as [|a p IH]; intros s H; [done|].
  destruct s as [|b s]; [done|]. simpl in H.
  apply andb_true_iff in H as [Hab Hp]. apply N.eqb_eq in Hab as ->.
  simpl. f_equal. by apply IH.
Qed.

Lemma key_value r : split_once EQUALS (KEY_PREFIX ++ r) !! 1 = Some r.
Proof. reflexivity. Qed.

Lemma folder_value r : split_once EQUALS (FOLDER_PREFIX ++ r) !! 1 = Some r.
Proof. reflexivity. Qed.

Lemma trimmed_nil : trimmed [].
Proof. by split. Qed.

(** What the loop keeps: a trimmed key, and a folder that is the working
    directory or a directory with a trimmed name. *)
Lemma config_lines_spec lines : forall api_key folder_path,
  trimmed api_key ->
  folder_path = os_getcwd \/ os_path_isdir folder_path = true ->
  let r := config_lines lines api_key folder_path in
  trimmed r.1.1
  /\ (r.1.2 = os_getcwd \/ os_path_isdir r.1.2 = true)
  /\ r.2 = false.
Proof.
  induction lines as [|line rest IH]; intros api_key folder_path Hk Hf;
    [done|].
  cbv zeta. cbn [config_lines].
  destruct (startswith KEY_PREFIX line) eqn:Hkey.
  { apply startswith_split in Hkey. rewrite Hkey, key_value.
    apply IH; [apply strip_trimmed|done]. }
  destruct (startswith FOLDER_PREFIX line) eqn:Hfolder; [|by apply IH].
  apply startswith_split in Hfolder. rewrite Hfolder, folder_value.
  cbv zeta. apply IH; [done|].
  destruct (os_path_isdir (strip _)) eqn:Hdir; [by right|by left].
Qed.

(** X11. Whatever [config.txt] holds, and however far reading it gets, the key
    returned has no white space around it, the folder returned is the
    working directory or passes [os.path.isdir], and the warning is printed
    exactly when reading raised: indexing the split line never does. *)
Theorem load_config_returns_usable_values file read_error :
  let r := load_config file read_error in
  trimmed r.1.1
  /\ (r.1.2 = os_getcwd \/ os_path_isdir r.1.2 = true)
  /\ r.2 = match file, read_error with
           | Some _, Some _ => true
           | _, _ => false
           end.
Proof.
  unfold load_config. destruct file as [text|].
  2:{ cbv zeta. simpl. split; [apply trimmed_nil|]. split; [by left|done]. }
  cbv zeta. destruct read_error as [n|].
  - destruct (config_lines_spec (take n (read_lines [] text)) [] os_getcwd
                trimmed_nil (or_introl eq_refl)) as (Hk & Hf & _).
    done.
  - apply config_lines_spec; [apply trimmed_nil|by left].
Qed.

Lemma write_text_app a b : write_text (a ++ b) = write_text a ++ write_text b.
Proof. apply flat_map_app. Qed.

Lemma write_text_one_line s : one_line s -> write_text s = s.
Proof.
  induction 1 as [|c s [Hlf _] Hs IH]; [done|].
  unfold write_text in *. simpl. apply N.eqb_neq in Hlf. rewrite Hlf.
  simpl. by rewrite IH.
Qed.

Lemma one_line_key_prefix : one_line KEY_PREFIX.
Proof. repeat (constructor; [by split|]). constructor. Qed.

Lemma one_line_folder_prefix : one_line FOLDER_PREFIX.
Proof. repeat (constructor; [by split|]). constructor. Qed.

Lemma write_text_config_text api_key folder_path :
  one_line api_key -> one_line folder_path ->
  write_text (config_text api_key folder_path)
  = (KEY_PREFIX ++ api_key) ++ os_linesep
      ++ (FOLDER_PREFIX ++ folder_path) ++ os_linesep.
Proof.
  intros Hk Hf. unfold config_text. rewrite !write_text_app.
  rewrite (write_text_one_line _ one_line_key_prefix).
  rewrite (write_text_one_line _ one_line_folder_prefix).
  rewrite (write_text_one_line _ Hk), (write_text_one_line _ Hf).
  assert (write_text [LF] = os_linesep) as ->
    by (unfold write_text; simpl; apply app_nil_r).
  by rewrite <- !app_assoc.
Qed.

Lemma read_lines_app s : forall acc rest,
  one_line s -> read_lines acc (s ++ rest) = read_lines (acc ++ s) rest.
Proof.
  induction s as [|c s IH]; intros acc rest Hs.
  { by rewrite app_nil_r. }
  apply Forall_cons in Hs as [[Hlf Hcr] Hs]. simpl.
  apply N.eqb_neq in Hlf, Hcr. rewrite Hlf, Hcr.
  rewrite IH by done. by rewrite <- app_assoc.
Qed.

(** A line written with either line ending is read back ending in
    ['\n']. *)
Lemma read_lines_written line rest :
  os_linesep = [LF] \/ os_linesep = [CR; LF] ->
  one_line line ->
  read_lines [] (line ++ os_linesep ++ rest)
  = (line ++ [LF]) :: read_lines [] rest.
Proof.
  intros [-> | ->] Hline; rewrite read_lines_app by done; reflexivity.
Qed.

Lemma one_line_app a b : one_line a -> one_line b -> one_line (a ++ b).
Proof. apply Forall_app_2. Qed.

Lemma rstrip_snoc_space c : forall s,
  is_space c = true -> rstrip (s ++ [c]) = rstrip s.
Proof.
  intros s Hc. induction s as [|a s IH]; simpl; [by rewrite Hc|].
  by rewrite IH.
Qed.

Lemma strip_snoc_space c : forall s,
  is_space c = true -> strip (s ++ [c]) = strip s.
Proof.
  intros s Hc. unfold strip. induction s as [|a s IH]; simpl.
  { by rewrite Hc. }
  destruct (is_space a); [exact IH|].
  apply (rstrip_snoc_space c (a :: s) Hc).
Qed.

(** X12. What [save_config] wrote is read back by [load_config], under either
    line-ending convention: the key comes back without the white space
    around it, and so does the folder if it is a directory, the working
    directory taking its place otherwise.  This needs the key and the
    folder to be free of line breaks. *)
Theorem saved_config_is_loaded_back api_key folder_path file :
  os_linesep = [LF] \/ os_linesep = [CR; LF] ->
  one_line api_key ->
  one_line folder_path ->
  load_config (save_config Written api_key folder_path file).1 None
  = (strip api_key,
     if os_path_isdir (strip folder_path) then strip folder_path
     else os_getcwd,
     false).
Proof.
  intros Hsep Hk Hf. unfold save_config, load_config. cbv zeta. cbn [fst].
  rewrite (write_text_config_text _ _ Hk Hf).
  rewrite (read_lines_written _ _ Hsep)
    by (apply one_line_app; [apply one_line_key_prefix|done]).
  rewrite <- (app_nil_r os_linesep) at 1.
  rewrite <- app_assoc.
  rewrite (read_lines_written _ [] Hsep)
    by (apply one_line_app; [apply one_line_folder_prefix|done]).
  change (read_lines [] []) with (@nil pystr).
  cbn [config_lines].
  rewrite <- !app_assoc.
  rewrite startswith_app, key_value.
  assert (startswith KEY_PREFIX (FOLDER_PREFIX ++ folder_path ++ [LF])
          = false) as -> by reflexivity.
  rewrite startswith_app, folder_value. cbv zeta.
  by rewrite !(strip_snoc_space LF).
Qed.

(** ** What the run reports as renamed *)

Lemma unreported_same_trace w w' : trace w' = trace w -> unreported w w'.
Proof. intros H. exists []. by rewrite app_nil_r. Qed.

Lemma unreported_refl w : unreported w w.
Proof. by apply unreported_same_trace. Qed.

Lemma unreported_trans w1 w2 w3 :
  unreported w1 w2 -> unreported w2 w3 -> unreported w1 w3.
Proof.
  intros (T1 & H1 & F1) (T2 & H2 & F2). exists (T1 ++ T2).
  split; [by rewrite H2, H1, app_assoc|]. by apply Forall_app_2.
Qed.

Lemma unreported_emit w ev :
  is_report ev = false ->
  unreported w (mkWorld (fs w) (clock w) (trace w ++ [ev]) (gemini_client w)).
Proof. intros H. exists [ev]. split; [done|]. by repeat constructor. Qed.

Lemma is_report_log m tag : announces m = None -> is_report (Log m tag) = false.
Proof. intros H. simpl. by rewrite H. Qed.

Ltac frame_unreported lem :=
  apply (lem unreported (fun ev => is_report ev = false));
  first [ exact unreported_refl | exact unreported_trans
        | exact unreported_emit | exact is_report_log
        | (intros; by apply unreported_same_trace)
        | (intros; reflexivity) ].

Lemma rename_to_description_unreported src ext short_title :
  framed unreported (rename_to_description src ext short_title).
Proof. frame_unreported framed_rename_to_description_by_parts. Qed.

Lemma load_images_unreported files image_batch failed :
  framed_returns unreported (load_images files image_batch failed).
Proof. frame_unreported framed_load_images. Qed.

Lemma get_batch_info_unreported image_batch :
  framed_returns unreported (get_batch_info_from_images image_batch).
Proof. frame_unreported framed_get_batch_info_from_images. Qed.

Lemma choose_temp_name_unreported original_filename :
  framed_returns unreported (choose_temp_name original_filename).
Proof. frame_unreported framed_choose_temp_name. Qed.

Lemma isolating_unreported original_filename temp_filename :
  framed unreported (isolating original_filename temp_filename).
Proof. frame_unreported framed_isolating. Qed.

Lemma requesting_unreported temp_filename :
  framed unreported (requesting temp_filename).
Proof. frame_unreported framed_requesting. Qed.

Lemma rollback_unreported original_filename temp_filename e :
  framed_returns unreported (rollback original_filename temp_filename e).
Proof. frame_unreported framed_rollback. Qed.

Lemma reported_after_rename_app T1 T2 :
  reported_after_rename T1 -> reported_after_rename T2 ->
  reported_after_rename (T1 ++ T2).
Proof.
  intros H1 H2 i m tag new_filename Hi Hm.
  destruct (decide (i < length T1)) as [Hlt|Hge].
  - rewrite lookup_app_l in Hi by done.
    destruct (H1 i m tag new_filename Hi Hm) as (j & src & -> & Hj).
    exists j, src. split; [done|]. rewrite lookup_app_l by lia. done.
  - rewrite lookup_app_r in Hi by lia.
    destruct (H2 _ m tag new_filename Hi Hm) as (j & src & Hij & Hj).
    exists (length T1 + j), src. split; [lia|].
    rewrite lookup_app_r by lia.
    by replace (length T1 + j - length T1) with j by lia.
Qed.

Lemma reported_after_rename_silent T :
  Forall (fun ev => is_report ev = false) T -> reported_after_rename T.
Proof.
  intros HT i m tag new_filename Hi Hm.
  rewrite Forall_lookup in HT. specialize (HT i _ Hi).
  simpl in HT. by rewrite Hm in HT.
Qed.

Lemma batch_renamed_silent T :
  Forall (fun ev => is_report ev = false) T -> batch_renamed T = [].
Proof.
  induction 1 as [|ev T Hev HT IH]; [done|].
  unfold batch_renamed in *.
  destruct ev as [m tag| | | | | | | |]; try exact IH.
  destruct m; first [exact IH | discriminate Hev].
Qed.

Lemma retry_renamed_silent T :
  Forall (fun ev => is_report ev = false) T -> retry_renamed T = [].
Proof.
  induction 1 as [|ev T Hev HT IH]; [done|].
  unfold retry_renamed in *.
  destruct ev as [m tag| | | | | | | |]; try exact IH.
  destruct m; first [exact IH | discriminate Hev].
Qed.

Lemma unreported_reports w w' : unreported w w' -> reports 0 0 w w'.
Proof.
  intros (T & HT & Hsilent). exists T. split; [done|].
  split; [by apply reported_after_rename_silent|].
  by rewrite batch_renamed_silent, retry_renamed_silent.
Qed.

Lemma reports_trans b1 r1 b2 r2 w1 w2 w3 :
  reports b1 r1 w1 w2 -> reports b2 r2 w2 w3 ->
  reports (b1 + b2) (r1 + r2) w1 w3.
Proof.
  intros (T1 & H1 & A1 & B1 & R1) (T2 & H2 & A2 & B2 & R2).
  exists (T1 ++ T2). split; [by rewrite H2, H1, app_assoc|].
  split; [by apply reported_after_rename_app|].
  unfold batch_renamed, retry_renamed in *.
  rewrite !omap_app, !length_app. lia.
Qed.

Lemma reports_before b r w1 w2 w3 :
  unreported w1 w2 -> reports b r w2 w3 -> reports b r w1 w3.
Proof.
  intros H1 H2. apply unreported_reports in H1.
  exact (reports_trans 0 0 b r _ _ _ H1 H2).
Qed.

Lemma reports_after b r w1 w2 w3 :
  reports b r w1 w2 -> unreported w2 w3 -> reports b r w1 w3.
Proof.
  intros H1 H2. apply unreported_reports in H2.
  pose proof (reports_trans b r 0 0 _ _ _ H1 H2) as H.
  by rewrite !Nat.add_0_r in H.
Qed.

(** The renamer adds one event to the trace: its [os.rename]. *)
Lemma rename_to_description_trace src ext short_title w :
  wp (rename_to_description src ext short_title) w
    (fun r w' => trace w' = trace w ++ [Rename src r.1 true])
    (fun _ w' => exists dst, trace w' = trace w ++ [Rename src dst false]).
Proof.
  destruct (rename_to_description_eq src ext short_title w)
    as (n & _ & _ & Heq).
  unfold wp. rewrite Heq. unfold bind.
  destruct (fs w !! src) as [c|] eqn:Hsrc.
  - destruct (os_refuses E (clock w) src
                (candidate (sanitize short_title ++ PROCESSED_SUFFIX) ext n))
      eqn:Href.
    + rewrite (os_rename_refused _ _ c) by done. by eexists.
    + by rewrite (os_rename_done _ _ c).
  - rewrite os_rename_missing by done. by eexists.
Qed.

Lemma renamed_then_reported src new_filename m tag :
  announces m = Some new_filename ->
  reported_after_rename [Rename src new_filename true; Log m tag].
Proof.
  intros Hm i m' tag' new' Hi Hm'.
  destruct i as [|[|i]]; simpl in Hi; [done| |done].
  injection Hi as -> ->. exists 0, src. split; [done|]. simpl. congruence.
Qed.

Lemma rename_described_reports original_filename short_title count failed w :
  wp (rename_described original_filename short_title count failed) w
    (fun r w' => exists n, r.1 = count + n /\ reports n 0 w w') never.
Proof.
  pose proof (rename_to_description_trace original_filename
                (splitext_ext original_filename) short_title w) as Ht.
  unfold wp in *.
  destruct (rename_to_description original_filename
              (splitext_ext original_filename) short_title w)
    as [[new_filename counter] w1|e w1|] eqn:Hren; [| |done].
  - rewrite (rename_described_done _ _ _ _ _ _ _ _ Hren).
    exists 1. split; [done|]. simpl in Ht.
    eexists. split; [simpl; rewrite Ht, <- app_assoc; reflexivity|].
    destruct (1 <? counter);
      (split; [by apply renamed_then_reported|done]).
  - rewrite (rename_described_failed _ _ _ _ _ _ _ Hren).
    exists 0. split; [simpl; lia|]. destruct Ht as [dst Ht].
    apply unreported_reports. eexists.
    split; [simpl; rewrite Ht, <- app_assoc; reflexivity|].
    by repeat constructor.
Qed.

Lemma renaming_reports temp_filename ext short_title w :
  wp (renaming temp_filename ext short_title) w
    (fun ok w' => ok = true /\ reports 0 1 w w')
    (fun _ w' => unreported w w').
Proof.
  pose proof (rename_to_description_trace temp_filename ext short_title w)
    as Ht.
  unfold wp in *.
  destruct (rename_to_description temp_filename ext short_title w)
    as [[new_filename counter] w1|e w1|] eqn:Hren; [| |done].
  - rewrite (renaming_done _ _ _ _ _ _ _ Hren). split; [done|].
    simpl in Ht.
    eexists. split; [simpl; rewrite Ht, <- app_assoc; reflexivity|].
    destruct (1 <? counter);
      (split; [by apply renamed_then_reported|done]).
  - unfold renaming. unfold bind at 1. rewrite Hren.
    destruct Ht as [dst Ht]. eexists. split; [exact Ht|].
    by repeat constructor.
Qed.

Lemma process_results_reports result_map image_batch :
  forall count failed w,
    wp (process_results result_map image_batch count failed) w
      (fun r w' => exists n, r.1 = count + n /\ reports n 0 w w') never.
Proof.
  induction image_batch as [|[filename img] rest IH]; intros count failed w;
    simpl.
  { apply wp_ret. exists 0. split; [simpl; lia|].
    apply unreported_reports, unreported_refl. }
  destruct (result_map !! filename) as [short_title|].
  - apply wp_bind.
    eapply wp_mono; [apply rename_described_reports| |done].
    intros [count1 failed1] w1 (n1 & Hn1 & H1). simpl in Hn1. simpl.
    eapply wp_mono; [apply IH| |done].
    intros r w2 (n2 & Hn2 & H2). exists (n1 + n2). split; [lia|].
    pose proof (reports_trans _ _ _ _ _ _ _ H1 H2) as H. exact H.
  - apply wp_bind, wp_log.
    eapply wp_mono; [apply IH| |done].
    intros r w2 (n2 & Hn2 & H2). exists n2. split; [done|].
    eapply reports_before; [|exact H2]. by apply unreported_emit.
Qed.

Lemma apply_batch_result_reports result_map files image_batch count failed w :
  wp (apply_batch_result result_map files image_batch count failed) w
    (fun r w' => exists n, r.1 = count + n /\ reports n 0 w w') never.
Proof.
  unfold apply_batch_result. destruct (truthy result_map).
  - apply process_results_reports.
  - apply wp_bind, wp_log, wp_ret. exists 0. split; [simpl; lia|].
    apply unreported_reports. by apply unreported_emit.
Qed.

Lemma process_batch_reports files count failed w :
  wp (process_batch files count failed) w
    (fun r w' => exists n, r.1 = count + n /\ reports n 0 w w') never.
Proof.
  unfold process_batch.
  apply (wp_framed_bind unreported); [apply load_images_unreported|].
  intros [image_batch failed1] w1 H1. cbv beta zeta. simpl.
  destruct image_batch as [|p image_batch].
  { apply wp_ret. exists 0. split; [simpl; lia|].
    by apply unreported_reports. }
  apply (wp_framed_bind unreported); [apply get_batch_info_unreported|].
  intros result_map w2 H2.
  eapply wp_mono; [apply apply_batch_result_reports| |done].
  intros r w3 (n & Hn & H3). exists n. split; [done|].
  eapply reports_before; [exact H1|].
  eapply reports_before; [exact H2|exact H3].
Qed.

Lemma batch_loop_reports all_files use_delay :
  forall fuel file_index count failed w,
    length all_files - file_index < fuel ->
    wp (batch_loop fuel all_files use_delay file_index count failed) w
      (fun r w' => exists n, r.1 = count + n /\ reports n 0 w w') never.
Proof.
  induction fuel as [|fuel IH]; intros file_index count failed w Hfuel;
    [lia|].
  simpl. destruct (file_index <? length all_files) eqn:Hlt.
  2:{ apply wp_ret. exists 0. split; [simpl; lia|].
      apply unreported_reports, unreported_refl. }
  apply Nat.ltb_lt in Hlt. apply wp_bind.
  eapply wp_mono; [apply process_batch_reports| |done].
  intros [count1 failed1] w1 (n1 & Hn1 & H1). cbv beta zeta.
  simpl in Hn1. simpl.
  assert (forall w2, unreported w1 w2 ->
            wp (batch_loop fuel all_files use_delay
                  (file_index + BATCH_SIZE) count1 failed1) w2
              (fun r w' => exists n, r.1 = count + n /\ reports n 0 w w')
              never) as Hrest.
  { intros w2 H2. eapply wp_mono; [apply IH| |done].
    - unfold BATCH_SIZE. lia.
    - intros r w3 (n2 & Hn2 & H3). exists (n1 + n2). split; [lia|].
      pose proof (reports_trans _ _ _ _ _ _ _ H1
                    (reports_before _ _ _ _ _ H2 H3)) as H.
      exact H. }
  apply wp_bind.
  destruct (use_delay && (file_index + BATCH_SIZE <? length all_files)).
  - apply wp_bind, wp_log. apply wp_emit. apply Hrest.
    eapply unreported_trans; by apply unreported_emit.
  - apply wp_ret. apply Hrest, unreported_refl.
Qed.

Lemma rollback_returns_false original_filename temp_filename e w :
  wp (rollback original_filename temp_filename e) w
    (fun ok w' => ok = false /\ unreported w w') never.
Proof.
  pose proof (rollback_unreported original_filename temp_filename e w) as H.
  unfold wp in *. unfold rollback in *.
  unfold bind at 1. unfold bind at 1 in H.
  unfold log_message at 1, emit at 1. unfold log_message at 1, emit at 1 in H.
  unfold bind at 1. unfold bind at 1 in H.
  destruct (try_except _ _ _) as [[] w1|e1 w1|]; by try split.
Qed.

Lemma recovery_attempt_reports original_filename temp_filename w :
  wp (recovery_attempt original_filename temp_filename) w
    (fun ok w' => reports 0 (if ok then 1 else 0) w w') never.
Proof.
  assert (forall e w1, unreported w w1 ->
            wp (rollback original_filename temp_filename e) w1
              (fun ok w' => reports 0 (if ok then 1 else 0) w w') never)
    as Hback.
  { intros e w1 H1. eapply wp_mono; [apply rollback_returns_false| |done].
    intros ok w2 [-> H2]. apply unreported_reports.
    by eapply unreported_trans. }
  unfold recovery_attempt. apply wp_try, wp_bind.
  eapply wp_mono; [apply isolating_unreported| |exact Hback].
  intros [] w1 H1. apply wp_bind.
  eapply wp_mono; [apply requesting_unreported| |].
  2:{ intros e w2 H2. apply Hback. by eapply unreported_trans. }
  intros short_title w2 H2.
  eapply wp_mono; [apply renaming_reports| |].
  - intros ok w3 [-> H3].
    eapply reports_before; [exact H1|].
    eapply reports_before; [exact H2|exact H3].
  - intros e w3 H3. apply Hback.
    exact (unreported_trans _ _ _ H1 (unreported_trans _ _ _ H2 H3)).
Qed.

Lemma retry_failed_file_reports original_filename w :
  wp (retry_failed_file original_filename) w
    (fun ok w' => reports 0 (if ok then 1 else 0) w w') never.
Proof.
  unfold retry_failed_file. apply wp_bind. unfold wp at 1, get_client.
  destruct (gemini_client w); simpl.
  2:{ apply wp_ret, unreported_reports, unreported_refl. }
  apply (wp_framed_bind unreported); [apply choose_temp_name_unreported|].
  intros temp_filename w1 H1.
  eapply wp_mono; [apply recovery_attempt_reports| |done].
  intros ok w2 H2. by eapply reports_before.
Qed.

Lemma retry_loop_reports files : forall count w,
  wp (retry_loop files count) w
    (fun r w' => exists n, r = count + n /\ reports 0 n w w') never.
Proof.
  induction files as [|filename rest IH]; intros count w; simpl.
  { apply wp_ret. exists 0. split; [lia|].
    apply unreported_reports, unreported_refl. }
  apply wp_bind.
  eapply wp_mono; [apply retry_failed_file_reports| |done].
  intros ok w1 H1.
  eapply wp_mono; [apply IH| |done].
  intros r w2 (n & Hn & H2).
  exists ((if ok then 1 else 0) + n). split; [destruct ok; lia|].
  pose proof (reports_trans _ _ _ _ _ _ _ H1 H2) as H. exact H.
Qed.

Lemma filter_length_Permutation {A} (f : A -> bool) (l1 l2 : list A) :
  l1 ≡ₚ l2 -> length (List.filter f l1) = length (List.filter f l2).
Proof.
  induction 1 as [|x l1 l2 _ IH|x y l|l1 l2 l3 _ IH1 _ IH2]; simpl.
  - done.
  - destruct (f x); simpl; by rewrite IH.
  - by destruct (f x), (f y).
  - by rewrite IH1.
Qed.

Lemma os_listdir_lists w :
  wp os_listdir w
    (fun listing w' =>
       listing ≡ₚ elements (dom (fs w)) /\ unreported w w') never.
Proof.
  unfold wp, os_listdir, bind, tick, get_fs, emit, ret. simpl.
  split; [apply merge_sort_Permutation|].
  exists [Listdir]. split; [done|]. by repeat constructor.
Qed.

(** The whole run: what it counts as eligible, and what it reports as
    renamed. *)
Lemma rename_images_in_directory_reports use_delay w :
  wp (rename_images_in_directory use_delay) w
    (fun tally w' =>
       total_eligible_files tally = length (eligible_names (fs w))
       /\ reports (batch_processed_count tally) (retry_processed_count tally)
            w w')
    never.
Proof.
  unfold rename_images_in_directory.
  apply wp_bind, wp_log, wp_bind.
  eapply wp_mono; [apply os_listdir_lists| |done].
  intros listing w1 [Hperm H1]. cbv beta zeta. simpl in Hperm.
  assert (unreported w w1) as H01.
  { eapply unreported_trans; [|exact H1].
    by apply (unreported_emit w (Log MsgStarting info)). }
  clear H1.
  set (all_files := List.filter is_eligible listing).
  assert (length all_files = length (eligible_names (fs w))) as Hlen
    by by apply filter_length_Permutation.
  apply wp_bind, wp_log, wp_bind.
  eapply wp_mono;
    [apply (batch_loop_reports all_files use_delay (S (length all_files))
              0 0 []); lia| |done].
  intros [batch_count failed] w2 (b & Hb & H2). cbv beta zeta.
  simpl in Hb. subst batch_count. cbn [fst snd].
  assert (reports b 0 w w2) as H02.
  { eapply reports_before; [exact H01|].
    eapply reports_before; [|exact H2]. by apply unreported_emit. }
  clear H01 H2.
  apply wp_bind.
  eapply (wp_mono _ _ (fun r w3 => reports b r w w3)).
  - destruct (sorted_set failed) as [|f0 rest] eqn:Hu.
    + by apply wp_ret.
    + apply wp_bind, wp_log.
      eapply wp_mono; [apply retry_loop_reports| |done].
      intros r w3 (n & -> & H3). cbv beta.
      pose proof (reports_trans _ _ _ _ _ _ _ H02
                    (reports_before _ _ _ _ _
                       (unreported_emit w2
                          (Log (MsgStartingRetry (length (f0 :: rest))) retry)
                          eq_refl) H3)) as H.
      by rewrite Nat.add_0_r in H.
  - intros retry_count w3 H3.
    do 4 apply wp_bind, wp_log. apply wp_bind, wp_emit, wp_ret. simpl.
    split; [done|].
    eapply reports_after; [exact H3|].
    eexists. split; [simpl; rewrite <- !app_assoc; reflexivity|].
    by repeat constructor.
  - done.
Qed.


End Renamer.

(** * Part III: concrete runs *)

(** The scenario of the specification: [cat.jpg] is moved to
    [temp_retry_ab12cd34.jpg], the request fails, [cat.jpg] is restored. *)
Lemma recovery_rollback_witness :
  exists w',
    retry_failed_file ascii_isalnum env_api_down cat_jpg cat_world
      = Returns false w'
    /\ fs w' = fs cat_world
    /\ last (trace w') = Some (Log (MsgRestored cat_jpg) error).
Proof.
  destruct (recovery_rollback_restores_original ascii_isalnum env_api_down
              cat_jpg 7 cat_world temp_cat cat_named cat_isolated APIError
              cat_requested)
    as (w' & Hrun & Hcase); [vm_compute; reflexivity..|].
  exists w'. split; [exact Hrun|].
  change (os_refuses env_api_down (clock cat_requested) temp_cat cat_jpg)
    with false in Hcase.
  destruct Hcase as (_ & _ & _ & Hsame & Hlast).
  split; [|exact Hlast]. apply Hsame. vm_compute. reflexivity.
Defined.

(** Three service errors in a row, and a response that does not parse. *)
Lemma batch_flow_retry_witness :
  gemini_client cat_world = true
  /\ (exists w',
        get_batch_info_from_images env_api_down [(cat_jpg, 7)] cat_world
          = Returns None w'
        /\ requests_and_sleeps (trace w')
           = [BatchRequest [cat_jpg]; Sleep 10;
              BatchRequest [cat_jpg]; Sleep 10;
              BatchRequest [cat_jpg]])
  /\ (exists w',
        get_batch_info_from_images env_b_first [(cat_jpg, 7)] cat_world
          = Returns None w'
        /\ requests_and_sleeps (trace w') = [BatchRequest [cat_jpg]]).
Proof.
  split; [reflexivity|]. split.
  - destruct (batch_flow_retry_policy env_api_down [(cat_jpg, 7)] cat_world
                eq_refl) as (_ & Hexhausted & _).
    destruct Hexhausted as (w' & Hrun & _ & Hio); [intros; reflexivity|].
    exists w'. split; [exact Hrun|exact Hio].
  - destruct (batch_flow_retry_policy env_b_first [(cat_jpg, 7)] cat_world
                eq_refl) as (Hsettled & _).
    destruct (Hsettled 0) as (w' & Hrun & _ & Hio);
      [unfold MAX_RETRIES; lia|intros j Hj; lia|discriminate|].
    exists w'. split; [exact Hrun|exact Hio].
Defined.

Lemma omitted_file_witness :
  exists count' G w',
    apply_batch_result ascii_isalnum (env_titles (u "Red Sunset"))
      (Some only_b) [a_jpg; b_jpg] two_images 0 [] two_world
    = Returns (count', G) w'
    /\ a_jpg ∈ G /\ count' + length G = 2.
Proof.
  destruct (omitted_file_joins_failure_set ascii_isalnum
              (env_titles (u "Red Sunset")) only_b [a_jpg; b_jpg] two_images
              a_jpg 0 [] two_world)
    as (count' & G & T & w' & Hrun & _ & Hin & _ & _ & _ & Hlen & _).
  - intros H. apply (f_equal (fun m => m !! b_jpg)) in H.
    vm_compute in H. discriminate.
  - apply (bool_decide_unpack _). vm_compute. exact I.
  - apply (bool_decide_unpack _). vm_compute. exact I.
  - vm_compute. reflexivity.
  - intros g Hg Hne. apply elem_of_cons in Hg as [->|Hg]; [done|].
    apply list_elem_of_singleton in Hg as ->. vm_compute. eauto.
  - exists count', G, w'. split; [exact Hrun|]. split; [exact Hin|exact Hlen].
Defined.

Lemma failure_set_witness :
  gemini_client cat_world = true
  /\ exists tally w',
       rename_images_in_directory ascii_isalnum ascii_lower env_api_down
         true cat_world = Returns tally w'
       /\ unique_failed_files tally
          = sorted_set (failed_files_for_retry tally)
       /\ retried_names (trace w') = unique_failed_files tally.
Proof.
  split; [reflexivity|].
  destruct (failure_set_sorted_and_retried_once ascii_isalnum ascii_lower
              env_api_down true cat_world eq_refl)
    as (tally & w' & Hrun & Hsorted & _ & _ & _ & Hnames).
  exists tally, w'. split; [exact Hrun|]. split; [exact Hsorted|exact Hnames].
Defined.


(** The title "!!!" in the batch path and in the recovery flow. *)
Lemma empty_sanitized_title_witness :
  sanitize ascii_isalnum (u "!!!") = []
  /\ (exists w',
        rename_described ascii_isalnum (env_titles (u "!!!")) cat_jpg
          (u "!!!") 0 [] cat_world = Returns (1, []) w'
        /\ fs w' = <[u "_DESC.jpg" := 7]> (delete cat_jpg (fs cat_world)))
  /\ (exists w',
        retry_failed_file ascii_isalnum (env_titles (u "!!!")) cat_jpg
          cat_world = Returns true w'
        /\ fs w' = <[u "_DESC.jpg" := 7]> (delete temp_cat (fs cat_requested))).
Proof.
  split; [vm_compute; reflexivity|].
  destruct (empty_sanitized_title_still_renames ascii_isalnum
              (env_titles (u "!!!")) (u "!!!")) as [Hbatch Hrecovery];
    [vm_compute; reflexivity|].
  split.
  - destruct (Hbatch cat_jpg 7 0 [] cat_world)
      as (n & w' & Hrun & Hfree & Hbelow & Hfs);
      [vm_compute; reflexivity|intros; reflexivity|].
    destruct n as [|n].
    + exists w'. split; [exact Hrun|exact Hfs].
    + exfalso. pose proof (Hbelow 0 ltac:(lia)) as Hx.
      vm_compute in Hx. discriminate.
  - destruct (Hrecovery cat_jpg 7 cat_world temp_cat cat_named cat_isolated
                cat_requested)
      as (n & w' & Hrun & _ & Hfree & Hbelow & Hfs);
      [vm_compute; reflexivity..|intros; reflexivity|].
    destruct n as [|n].
    + exists w'. split; [exact Hrun|exact Hfs].
    + exfalso. pose proof (Hbelow 0 ltac:(lia)) as Hx.
      vm_compute in Hx. discriminate.
Defined.

(** ** Where the code differs from the specification's sentences *)

(** C5 as stated fails: the mapping omits only [a.jpg] and describes
    [b.jpg], yet [b.jpg] joins the failure list as well, because its rename
    raised. *)
Lemma described_file_joins_failure_set :
  only_b !! a_jpg = None
  /\ only_b !! b_jpg = Some (u "Red Sunset")
  /\ exists w',
       apply_batch_result ascii_isalnum env_b_locked (Some only_b)
         [a_jpg; b_jpg] two_images 0 [] two_world
       = Returns (0, [a_jpg; b_jpg]) w'.
Proof.
  split; [vm_compute; reflexivity|]. split; [vm_compute; reflexivity|].
  eexists. vm_compute. reflexivity.
Qed.

(** C6 as stated fails: a run of two spaces becomes two underscores, not
    one separator. *)
Lemma sanitize_keeps_runs :
  sanitize ascii_isalnum (u "a  b") = u "a__b"
  /\ sanitize_collapsing ascii_isalnum (u "a  b") = u "a_b"
  /\ sanitize ascii_isalnum (u "a  b")
     <> sanitize_collapsing ascii_isalnum (u "a  b").
Proof.
  split; [vm_compute; reflexivity|]. split; [vm_compute; reflexivity|].
  vm_compute. discriminate.
Qed.

(** C8 as stated fails: the failure list is accumulated as [b.jpg],
    [a.jpg], and the recovery loop runs over [a.jpg], [b.jpg]. *)
Lemma failure_set_not_in_accumulation_order :
  exists tally w',
    rename_images_in_directory ascii_isalnum ascii_lower env_b_first true
      two_world = Returns tally w'
    /\ failed_files_for_retry tally = [b_jpg; a_jpg]
    /\ unique_failed_files tally = [a_jpg; b_jpg]
    /\ unique_failed_files tally
       <> first_occurrences (failed_files_for_retry tally)
    /\ retried_names (trace w') = [a_jpg; b_jpg].
Proof.
  eexists _, _. split; [vm_compute; reflexivity|].
  split; [reflexivity|]. split; [reflexivity|].
  split; [vm_compute; discriminate|reflexivity].
Qed.


(** C10 as stated fails: the empty title sanitizes to the empty string,
    and the recovery flow treats it as a failure and restores the file. *)
Lemma empty_title_fails_recovery :
  sanitize ascii_isalnum [] = []
  /\ exists w',
       retry_failed_file ascii_isalnum (env_titles []) cat_jpg cat_world
         = Returns false w'
       /\ fs w' = fs cat_world
       /\ last (trace w') = Some (Log (MsgRestored cat_jpg) error).
Proof.
  split; [reflexivity|].
  eexists. split; [vm_compute; reflexivity|].
  split; [vm_compute; reflexivity|reflexivity].
Qed.


(** ** Runs behind the further properties *)

(** [cat.jpg], titled "Red Sunset", becomes [Red_Sunset_DESC.jpg]. *)
Lemma renamed_file_witness :
  exists w',
    rename_to_description ascii_isalnum (env_titles (u "Red Sunset"))
      cat_jpg (u ".jpg") (u "Red Sunset") cat_world
      = Returns (u "Red_Sunset_DESC.jpg", 1) w'
    /\ is_eligible ascii_lower (u "Red_Sunset_DESC.jpg") = false
    /\ fs w' !! u "Red_Sunset_DESC.jpg" = Some 7.
Proof.
  eexists. split; [vm_compute; reflexivity|].
  match goal with |- context [fs ?w'] =>
    destruct (renamed_file_is_never_eligible ascii_isalnum ascii_lower
                (env_titles (u "Red Sunset")) cat_jpg (u ".jpg")
                (u "Red Sunset") cat_world (u "Red_Sunset_DESC.jpg") 1 w')
      as (Hel & _ & _ & _ & Hfile); [vm_compute; reflexivity|]
  end.
  split; [exact Hel|]. exact Hfile.
Defined.

(** The recovery of [cat.jpg], titled "Red Sunset", ends the first way:
    the file is under a marked name. *)
Lemma recovery_ends_witness :
  exists w',
    retry_failed_file ascii_isalnum (env_titles (u "Red Sunset")) cat_jpg
      cat_world = Returns true w'
    /\ exists new_filename,
         fs w' = <[new_filename := 7]> (delete cat_jpg (fs cat_world))
         /\ contains PROCESSED_SUFFIX new_filename = true.
Proof.
  destruct (recovery_ends_three_ways ascii_isalnum
              (env_titles (u "Red Sunset")) cat_jpg 7 cat_world temp_cat
              cat_named)
    as (ok & w' & Hrun & Hcase); [vm_compute; reflexivity..|].
  assert (ok = true) as ->.
  { pose proof Hrun as Hrun'. vm_compute in Hrun'. by injection Hrun' as <- _. }
  exists w'. split; [exact Hrun|].
  destruct Hcase as (new_filename & Hfs & _ & Hmarked). by exists new_filename.
Defined.


(** Without a client, [cat.jpg] stays and is reported as untouched. *)
Lemma run_without_client_witness :
  gemini_client cat_world_no_client = false
  /\ exists tally w',
       rename_images_in_directory ascii_isalnum ascii_lower env_api_down
         false cat_world_no_client = Returns tally w'
       /\ fs w' = fs cat_world_no_client
       /\ List.filter is_effect (trace w')
          = List.filter is_effect (trace cat_world_no_client)
       /\ total_renamed tally = 0
       /\ total_failed tally = Z.of_nat (total_eligible_files tally).
Proof.
  split; [reflexivity|].
  apply (run_without_client_changes_nothing ascii_isalnum ascii_lower
           env_api_down false cat_world_no_client).
  reflexivity.
Defined.

(** A second run over a directory that holds a renamed image and a text
    file finds nothing to do. *)
Lemma run_without_eligible_witness :
  exists w',
    rename_images_in_directory ascii_isalnum ascii_lower
      (env_titles (u "Red Sunset")) true done_world
      = Returns (mkTally 0 0 [] [] 0 0 0) w'
    /\ fs w' = fs done_world
    /\ trace w'
       = trace done_world
           ++ [Log MsgStarting info; Listdir;
               Log (MsgTotalEligible 0) info;
               Log MsgComplete info;
               Log (MsgSummaryEligible 0) info;
               Log (MsgSummaryRenamed 0) success;
               Log (MsgSummaryUntouched 0) error;
               ShowInfo 0].
Proof.
  apply (run_without_eligible_files ascii_isalnum ascii_lower
           (env_titles (u "Red Sunset")) true done_world).
  intros f [c Hc]. unfold done_world in Hc. cbn [fs] in Hc.
  destruct (decide (f = sunset_desc)) as [->|Hne1];
    [vm_compute; reflexivity|].
  rewrite lookup_insert_ne in Hc by done.
  destruct (decide (f = notes_txt)) as [->|Hne2];
    [vm_compute; reflexivity|].
  rewrite lookup_insert_ne in Hc by done.
  by rewrite lookup_empty in Hc.
Defined.


(** A key typed with spaces around it and a folder, saved with Windows
    line endings and loaded again. *)
Lemma saved_config_witness :
  load_config (u "/home") (fun p => bool_decide (p = u "/photos"))
    (save_config [CR; LF] Written (u " key-0123456789 ") (u "/photos")
       None).1 None
  = (u "key-0123456789", u "/photos", false).
Proof.
  etrans.
  - apply (saved_config_is_loaded_back (u "/home")
             (fun p => bool_decide (p = u "/photos")) [CR; LF]
             (u " key-0123456789 ") (u "/photos") None).
    + by right.
    + repeat (constructor; [by split|]). constructor.
    + repeat (constructor; [by split|]). constructor.
  - vm_compute. reflexivity.
Defined.


(** C1, the defect. [Red_Sunset_DESC.jpg] is listed in the directory, but it
    is a symbolic link whose target is gone, so [os.path.exists] answers no:
    the counter loop stops at that name with the counter still 1, and the
    rename puts [cat.jpg] in the place of the link, which is gone from the
    directory afterwards. *)
Lemma dangling_link_is_replaced :
  fs link_world !! sunset_desc = Some 8
  /\ conflict_loop env_dangling (S (size (fs link_world)))
       (u "Red_Sunset_DESC") (u ".jpg") 1 sunset_desc link_world
     = Returns (sunset_desc, 1) link_world
  /\ exists w',
       rename_to_description ascii_isalnum env_dangling cat_jpg (u ".jpg")
         (u "Red Sunset") link_world
       = Returns (sunset_desc, 1) w'
       /\ fs w' = <[sunset_desc := 7]> ∅.
Proof.
  split; [vm_compute; reflexivity|].
  split; [vm_compute; reflexivity|].
  eexists. split; vm_compute; reflexivity.
Qed.


(** Two images titled alike, in a directory without links: both are
    renamed and the directory still holds two files. *)
Lemma batch_phase_keeps_witness :
  exists st w',
    batch_loop ascii_isalnum (env_titles (u "Red Sunset")) 3 [a_jpg; b_jpg]
      true 0 0 [] two_world = Returns st w'
    /\ contents (fs w') ≡ₚ contents (fs two_world)
    /\ size (fs w') = size (fs two_world).
Proof.
  apply (batch_phase_keeps_every_file ascii_isalnum
           (env_titles (u "Red Sunset")) [a_jpg; b_jpg] true two_world).
  intros; reflexivity.
Defined.
